(** * Batch translation workflow (notebook 90): a shallow embedding

    The notebook is a linear script of cells.  Each cell is embedded as a
    function over the values it reads and writes:
    - the Python [str] builtins the cells rely on ([replace], [split],
      [strip], [int], [str], [join]) are in [PyStr];
    - the request builder ([make_jsonl_line] and the JSONL build loop) is in
      [Builder];
    - the NUM_PARTS cell is in [Chunker], over a file system of text files;
    - the polling loop is in [Poller], over the three sets PENDING,
      COMPLETED and FAILED and a log of the calls it makes;
    - [parse_batch_file] and the download-and-parse cell are in [Parser];
    - the API-key cell is in [Startup].

    Text is ASCII throughout (character codes below 128), which is what
    [json.dumps] writes and what the identifiers of the notebook use. *)

From Stdlib Require Import ZArith Ascii String.
From Stdlib Require Import DecimalString DecimalZ DecimalPos DecimalN.
From stdpp Require Import gmap strings list fin_maps.

Set Warnings "-clear-no-such-hyp".

(** ** Exceptions and fallible results *)

(** The exceptions the cells can raise; [ValueError] carries its message. *)
Inductive exn : Type :=
  | ValueError (msg : string)
  | KeyError (key : string)
  | IndexError
  | TypeError
  | AttributeError
  | JSONDecodeError
  | ZeroDivisionError
  | FileNotFoundError (path : string).

(** A computation that either raises or returns. *)
Definition result (A : Type) : Type := exn + A.

Definition raise {A : Type} (e : exn) : result A := inl e.

#[global] Instance result_ret : MRet result := λ A a, inr a.

#[global] Instance result_bind : MBind result := λ A B k m,
  match m with
  | inl e => inl e
  | inr a => k a
  end.

Definition raises {A : Type} (m : result A) : Prop := ∃ e, m = inl e.

(** ** Python [str] builtins *)

Module PyStr.

(** [all_chars p s]: every character of [s] satisfies [p]. *)
Fixpoint all_chars (p : ascii → bool) (s : string) : bool :=
  match s with
  | EmptyString => true
  | String c s' => p c && all_chars p s'
  end.

(** [sub in s] *)
Fixpoint contains (sub s : string) : bool :=
  String.prefix sub s ||
  match s with
  | EmptyString => false
  | String _ s' => contains sub s'
  end.

(** [s.replace(old, new)] for a non-empty [old]: scan from the left; at
    an occurrence of [old] emit [new] and skip the occurrence, otherwise
    copy one character.  [skip] counts the characters of the current
    occurrence that are still to be dropped. *)
Fixpoint replace_from (old new : string) (skip : nat) (s : string) : string :=
  match s with
  | EmptyString => EmptyString
  | String c s' =>
      match skip with
      | S k => replace_from old new k s'
      | O =>
          if String.prefix old s
          then new +:+ replace_from old new (String.length old - 1) s'
          else String c (replace_from old new 0 s')
      end
  end.

(** For an empty [old] Python puts [new] before every character and at
    the end. *)
Fixpoint interleave (new s : string) : string :=
  match s with
  | EmptyString => new
  | String c s' => new +:+ String c (interleave new s')
  end.

Definition replace (old new s : string) : string :=
  match old with
  | EmptyString => interleave new s
  | _ => replace_from old new 0 s
  end.

(** [s.split(sep)] for a non-empty [sep]; the head of the result is the
    part being read.  An empty [sep] raises [ValueError]. *)
Fixpoint split_from (sep : string) (skip : nat) (s : string) : list string :=
  match s with
  | EmptyString => [EmptyString]
  | String c s' =>
      match skip with
      | S k => split_from sep k s'
      | O =>
          if String.prefix sep s
          then EmptyString :: split_from sep (String.length sep - 1) s'
          else match split_from sep 0 s' with
               | p :: ps => String c p :: ps
               | [] => [String c EmptyString]
               end
      end
  end.

Definition split (sep s : string) : result (list string) :=
  match sep with
  | EmptyString => raise (ValueError "empty separator")
  | _ => mret (split_from sep 0 s)
  end.

(** [sep.join(parts)] *)
Definition join (sep : string) (parts : list string) : string :=
  String.concat sep parts.

(** ASCII whitespace as [str.strip()] sees it: tab, LF, VT, FF, CR, the
    separators 0x1c-0x1f and space. *)
Definition isspace (c : ascii) : bool :=
  let n := nat_of_ascii c in
  ((9 <=? n) && (n <=? 13) || (28 <=? n) && (n <=? 32)).

(** Whitespace as [int()] skips it: tab, LF, VT, FF, CR and space. *)
Definition isspace_c (c : ascii) : bool :=
  let n := nat_of_ascii c in
  ((9 <=? n) && (n <=? 13) || (n =? 32)).

Fixpoint lstrip_with (sp : ascii → bool) (s : string) : string :=
  match s with
  | EmptyString => EmptyString
  | String c s' => if sp c then lstrip_with sp s' else s
  end.

Fixpoint rstrip_with (sp : ascii → bool) (s : string) : string :=
  match s with
  | EmptyString => EmptyString
  | String c s' =>
      match rstrip_with sp s' with
      | EmptyString => if sp c then EmptyString else String c EmptyString
      | r => String c r
      end
  end.

Definition strip_with (sp : ascii → bool) (s : string) : string :=
  rstrip_with sp (lstrip_with sp s).

(** [s.strip()] *)
Definition strip (s : string) : string := strip_with isspace s.

(** [str(n)] for an [int]: decimal digits, a leading "-" when negative. *)
Definition str_of_int (n : Z) : string :=
  NilZero.string_of_int (Z.to_int n).

(** Digits of an unsigned literal; at least one digit is required. *)
Definition digits_value (body : string) : option Z :=
  match body with
  | EmptyString => None
  | _ => Z.of_uint <$> NilEmpty.uint_of_string body
  end.

(** [int(s)] for a [str]: surrounding whitespace is dropped, one sign is
    allowed, then decimal digits.  (Digit-group underscores never reach
    this function in the notebook: its argument comes out of
    [split("_")].) *)
Definition int_of_str (s : string) : result Z :=
  let t := strip_with isspace_c s in
  let signed :=
    match t with
    | String "-" body => Z.opp <$> digits_value body
    | String "+" body => digits_value body
    | _ => digits_value t
    end in
  match signed with
  | Some n => mret n
  | None => raise (ValueError "invalid literal for int() with base 10")
  end.

(** Character classes used to describe what the builtins return. *)
Definition is_digit (c : ascii) : bool :=
  (48 <=? nat_of_ascii c) && (nat_of_ascii c <=? 57).

(** The characters [str] of an integer is made of. *)
Definition int_char (c : ascii) : bool :=
  is_digit c || Ascii.eqb c "-".

Definition differs (c0 : ascii) (c : ascii) : bool := negb (Ascii.eqb c c0).

End PyStr.

(** ** Request builder *)

Module Builder.

(** One row of [df_claims]. *)
Record Row : Type := mkRow {
  claim_id : Z;
  Claim : string;
  Nutrient : string;
  Relationship : string
}.

#[global] Instance Row_eq_dec : EqDecision Row.
Proof. solve_decision. Defined.

(** The request dictionary, flattened; [response_format] is the same
    schema literal in every request and is left out. *)
Record RequestRecord : Type := mkRequest {
  custom_id : string;
  method : string;
  url : string;
  model : string;
  system_content : string;
  user_content : string;
  temperature : Z;
  max_tokens : Z
}.

Definition SYSTEM_PROMPT : string :=
  "You are a certified medical-translation specialist.
Translate the ENGLISH text below into the target language.
Preserve technical terms if no local equivalent exists.
Return JSON strictly matching the schema keys provided.".

Definition nl : string := String (ascii_of_nat 10) EmptyString.

(** f"claim{row.claim_id}_{target_lang}" *)
Definition compose_id (row_key : Z) (target_lang : string) : string :=
  "claim" +:+ PyStr.str_of_int row_key +:+ "_" +:+ target_lang.

Definition make_jsonl_line (row : Row) (target_lang : string) : RequestRecord :=
  let custom_id := compose_id (claim_id row) target_lang in
  let user_prompt :=
    "Target language: " +:+ target_lang +:+ nl +:+
    "Claim: " +:+ Claim row +:+ nl +:+
    "Nutrient substance: " +:+ Nutrient row +:+ nl +:+
    "Health relationship: " +:+ Relationship row in
  {| custom_id := custom_id;
     method := "POST";
     url := "/v1/chat/completions";
     model := "gpt-4o-mini";
     system_content := SYSTEM_PROMPT;
     user_content := user_prompt;
     temperature := 0;
     max_tokens := 512 |}.

(** The build loop: for every row, for every language, one line, in
    that order. *)
Definition build_jsonl (df_claims : list Row) (TARGET_LANGS : list string)
  : list RequestRecord :=
  flat_map (λ row, map (make_jsonl_line row) TARGET_LANGS) df_claims.

Definition TARGET_LANGS : list string := ["Spanish"; "German"; "Japanese"].

Definition df_claims : list Row :=
  [ mkRow 1 "Calcium contributes to normal bone health."
            "Calcium" "Bone health";
    mkRow 2 "DHA intake contributes to the normal function of the brain."
            "Docosahexaenoic acid (DHA)" "Brain function";
    mkRow 3 "Plant sterols have been shown to lower blood cholesterol."
            "Plant sterols" "Blood cholesterol" ].

End Builder.

(** ** Identifier decomposition, as [parse_batch_file] does it *)

Module Decompose.

(** [claim_id, lang = cid.replace("claim","").split("_")] followed by
    [int(claim_id)]: unpacking needs exactly two parts. *)
Definition decompose_id (cid : string) : result (Z * string) :=
  parts ← PyStr.split "_" (PyStr.replace "claim" "" cid);
  match parts with
  | [claim_id; lang] =>
      n ← PyStr.int_of_str claim_id;
      mret (n, lang)
  | [] | [_] => raise (ValueError "not enough values to unpack")
  | _ => raise (ValueError "too many values to unpack")
  end.

(** Decompose, then compose again with the builder's format. *)
Definition recompose (cid : string) : result string :=
  kl ← decompose_id cid;
  mret (Builder.compose_id kl.1 kl.2).

End Decompose.

(** ** Text files *)

Module Files.

(** Line boundaries of [str.splitlines()] in ASCII: LF, VT, FF, CR and
    the separators 0x1c, 0x1d, 0x1e; CR LF counts once. *)
Definition is_linebreak (c : ascii) : bool :=
  let n := nat_of_ascii c in
  ((10 <=? n) && (n <=? 13) || (28 <=? n) && (n <=? 30)).

Definition is_cr (c : ascii) : bool := (nat_of_ascii c =? 13).
Definition is_lf (c : ascii) : bool := (nat_of_ascii c =? 10).

(** The head of the result is the line being read; a boundary closes
    it.  Text that ends in a boundary has no further (empty) line. *)
Fixpoint splitlines_from (after_cr : bool) (s : string) : list string :=
  match s with
  | EmptyString => []
  | String c s' =>
      if is_linebreak c then
        if is_lf c && after_cr then splitlines_from false s'
        else EmptyString :: splitlines_from (is_cr c) s'
      else
        match splitlines_from false s' with
        | [] => [String c EmptyString]
        | l :: ls => String c l :: ls
        end
  end.

(** [text.splitlines()] *)
Definition splitlines (text : string) : list string :=
  splitlines_from false text.

(** [path.read_text()] over a store of text files keyed by path. *)
Definition read_text (fs : gmap string string) (path : string) : result string :=
  match fs !! path with
  | Some text => mret text
  | None => raise (FileNotFoundError path)
  end.

(** [path.write_text(text)] *)
Definition write_text (fs : gmap string string) (path text : string)
  : gmap string string :=
  <[path := text]> fs.

End Files.

(** ** Chunker: the NUM_PARTS cell *)

Module Chunker.

Definition jsonl_path : string := "int_data/batch_input_claims_demo.jsonl".
Definition part_dir : string := "int_data/batch_parts_demo".

(** part_dir / f"claims_part{i+1}.jsonl" *)
Definition part_path (i : nat) : string :=
  part_dir +:+ "/claims_part" +:+ PyStr.str_of_int (Z.of_nat (i + 1)) +:+ ".jsonl".

(** [l[a:b]] for indices [0 <= a] and [0 <= b]: clipped at the end of
    the list, empty when the window is. *)
Definition slice {A : Type} (l : list A) (a b : nat) : list A :=
  take (b - a) (drop a l).

(** [chunk = len(lines) // NUM_PARTS + 1] *)
Definition chunk_size (NUM_PARTS : nat) (lines : list string) : nat :=
  length lines / NUM_PARTS + 1.

(** [lines[i*chunk:(i+1)*chunk]] *)
Definition chunk_slice (lines : list string) (chunk i : nat) : list string :=
  slice lines (i * chunk) ((i + 1) * chunk).

(** One turn of [for i in range(NUM_PARTS)]: write the slice, append
    the path. *)
Definition write_part (lines : list string) (chunk : nat)
    (acc : list string * gmap string string) (i : nat)
  : list string * gmap string string :=
  let p := part_path i in
  (acc.1 ++ [p],
   Files.write_text acc.2 p (PyStr.join Builder.nl (chunk_slice lines chunk i))).

(** The cell.  [NUM_PARTS] is a count; the else branch divides by it,
    so 0 raises.  Returns [part_paths] and the files afterwards. *)
Definition split_parts (NUM_PARTS : nat) (fs : gmap string string)
  : result (list string * gmap string string) :=
  if (NUM_PARTS =? 1) then mret ([jsonl_path], fs)
  else
    text ← Files.read_text fs jsonl_path;
    let lines := Files.splitlines text in
    if (NUM_PARTS =? 0) then raise ZeroDivisionError
    else
      let chunk := chunk_size NUM_PARTS lines in
      mret (foldl (write_part lines chunk) ([], fs) (seq 0 NUM_PARTS)).

(** The line lists of the parts, in the order of [part_paths]: the
    input's own lines in the first branch, the slices in the second. *)
Definition part_lines (NUM_PARTS : nat) (lines : list string) : list (list string) :=
  if (NUM_PARTS =? 1) then [lines]
  else map (chunk_slice lines (chunk_size NUM_PARTS lines)) (seq 0 NUM_PARTS).

End Chunker.

(** ** Poller: the polling loop *)

Module Poller.

(** What the loop does to the outside: a status query with the status
    it got back, the progress line, the sleep. *)
Inductive event : Type :=
  | Retrieve (bid status : string)
  | Print (done failed pending : nat)
  | Sleep (seconds : nat).

Record state : Type := mkState {
  PENDING : gset string;
  COMPLETED : gset string;
  FAILED : gset string;
  log : list event
}.

(** [PENDING = set(batch_ids); COMPLETED, FAILED = set(), set()] *)
Definition init (batch_ids : list string) : state :=
  mkState (list_to_set batch_ids) ∅ ∅ [].

(** The body of [for bid in list(PENDING)] for one [bid]; [status] is
    what the service answers during this sweep. *)
Definition visit (status : string → string) (s : state) (bid : string) : state :=
  let st := status bid in
  let log' := log s ++ [Retrieve bid st] in
  if decide (st = "completed") then
    mkState (PENDING s ∖ {[bid]}) ({[bid]} ∪ COMPLETED s) (FAILED s) log'
  else if decide (st = "failed") then
    mkState (PENDING s ∖ {[bid]}) (COMPLETED s) ({[bid]} ∪ FAILED s) log'
  else
    mkState (PENDING s) (COMPLETED s) (FAILED s) log'.

(** The body of the while loop: one pass over a snapshot of PENDING,
    the progress line, and a sleep when something is still pending. *)
Definition sweep (status : string → string) (s : state) : state :=
  let s1 := foldl (visit status) s (elements (PENDING s)) in
  let line := Print (size (COMPLETED s1)) (size (FAILED s1)) (size (PENDING s1)) in
  let s2 := mkState (PENDING s1) (COMPLETED s1) (FAILED s1) (log s1 ++ [line]) in
  if decide (PENDING s2 = ∅) then s2
  else mkState (PENDING s2) (COMPLETED s2) (FAILED s2) (log s2 ++ [Sleep 60]).

(** [while PENDING: ...] with [fuel] bounding the number of sweeps;
    [api round] is the service's answer during sweep number [round].
    [None]: still polling when the fuel ran out. *)
Fixpoint poll_loop (fuel : nat) (api : nat → string → string) (round : nat)
    (s : state) : option state :=
  if decide (PENDING s = ∅) then Some s
  else match fuel with
       | O => None
       | S fuel' => poll_loop fuel' api (S round) (sweep (api round) s)
       end.

(** The state after [k] turns of the while loop (fewer when the loop
    has left earlier). *)
Fixpoint run (k : nat) (api : nat → string → string) (round : nat)
    (s : state) : state :=
  match k with
  | O => s
  | S k' =>
      if decide (PENDING s = ∅) then s
      else run k' api (S round) (sweep (api round) s)
  end.

(** Every handle of [batch_ids] is in a terminal state. *)
Definition all_terminal (batch_ids : list string) (s : state) : Prop :=
  ∀ bid, bid ∈ batch_ids → bid ∈ COMPLETED s ∨ bid ∈ FAILED s.

(** The log entry of one status query. *)
Definition retrieved (status : string → string) (bid : string) : event :=
  Retrieve bid (status bid).

(** A status after which the loop moves the handle. *)
Definition terminal (st : string) : Prop := st = "completed" ∨ st = "failed".

(** The three sets split the submitted handles. *)
Record partition (batch_ids : list string) (s : state) : Prop := mkPartition {
  covers : ∀ b, b ∈ batch_ids ↔ b ∈ PENDING s ∨ b ∈ COMPLETED s ∨ b ∈ FAILED s;
  pending_not_completed : ∀ b, b ∈ PENDING s → b ∉ COMPLETED s;
  pending_not_failed : ∀ b, b ∈ PENDING s → b ∉ FAILED s;
  completed_not_failed : ∀ b, b ∈ COMPLETED s → b ∉ FAILED s
}.

End Poller.

(** ** Result parser and the download-and-parse cell *)

Module Parser.

(** What [json.loads] returns. *)
#[warnings="-register-all"]
Inductive json : Type :=
  | JNull
  | JBool (b : bool)
  | JInt (n : Z)
  | JFloat (repr : string)
  | JStr (s : string)
  | JList (items : list json)
  | JDict (fields : list (string * json)).

(** The dictionary of an object: a later field replaces an earlier one
    of the same name. *)
Definition dict_of (fields : list (string * json)) : gmap string json :=
  foldl (λ m kv, <[kv.1 := kv.2]> m) ∅ fields.

(** [v[key]] for a string key *)
Definition getitem (key : string) (v : json) : result json :=
  match v with
  | JDict fields =>
      match dict_of fields !! key with
      | Some x => mret x
      | None => raise (KeyError key)
      end
  | _ => raise TypeError
  end.

(** [v[0]] *)
Definition getitem0 (v : json) : result json :=
  match v with
  | JList (x :: _) => mret x
  | JList [] => raise IndexError
  | JStr (String c _) => mret (JStr (String c EmptyString))
  | JStr EmptyString => raise IndexError
  | JDict _ => raise (KeyError "0")
  | _ => raise TypeError
  end.

(** A row of the parsed table and the table itself. *)
Definition ResultRecord : Type := gmap string json.
Definition DataFrame : Type := list ResultRecord.

Record Client : Type := mkClient {
  batch_status : string → string;
  output_text : string → string
}.

Definition out_dir : string := "int_data/batch_out_demo".

(** [download_output]: [None] when the batch is not completed. *)
Definition download_output (client : Client) (batch_id : string)
    (fs : gmap string string) : option string * gmap string string :=
  if decide (batch_status client batch_id ≠ "completed") then (None, fs)
  else
    let out_path := out_dir +:+ "/" +:+ batch_id +:+ ".jsonl" in
    (Some out_path, Files.write_text fs out_path (output_text client batch_id)).

Section WithDecoder.

(** The JSON decoder; [None] stands for [JSONDecodeError]. *)
Variable json_loads : string → option json.

(** [json.loads(v)]: the argument has to be a string. *)
Definition loads (v : json) : result json :=
  match v with
  | JStr s =>
      match json_loads s with
      | Some j => mret j
      | None => raise JSONDecodeError
      end
  | _ => raise TypeError
  end.

(** [blob["response"]["body"]["choices"][0]["message"]["content"]] *)
Definition blob_content (blob : json) : result json :=
  r ← getitem "response" blob;
  b ← getitem "body" r;
  cs ← getitem "choices" b;
  c ← getitem0 cs;
  m ← getitem "message" c;
  getitem "content" m.

(** [cid.replace(...)] needs a string. *)
Definition as_str (v : json) : result string :=
  match v with
  | JStr s => mret s
  | _ => raise AttributeError
  end.

(** {"claim_id": int(claim_id), "language": lang, **payload} *)
Definition make_row (n : Z) (lang : string) (payload : json)
  : result ResultRecord :=
  match payload with
  | JDict fields =>
      mret (dict_of fields ∪
            <["language" := JStr lang]> (<["claim_id" := JInt n]> ∅))
  | _ => raise TypeError
  end.

(** The body of the loop of [parse_batch_file] for one line. *)
Definition parse_line (line : string) : result ResultRecord :=
  blob ← loads (JStr line);
  cid ← getitem "custom_id" blob;
  content ← blob_content blob;
  payload ← loads content;
  cid_s ← as_str cid;
  kl ← Decompose.decompose_id cid_s;
  make_row kl.1 kl.2 payload.

(** The loop of [parse_batch_file]; [rows] is the list built so far. *)
Fixpoint parse_lines (lines : list string) (rows : list ResultRecord)
  : result (list ResultRecord) :=
  match lines with
  | [] => mret rows
  | line :: lines' =>
      row ← parse_line line;
      parse_lines lines' (rows ++ [row])
  end.

Definition parse_batch_file (fs : gmap string string) (path : string)
  : result DataFrame :=
  text ← Files.read_text fs path;
  parse_lines (Files.splitlines text) [].

(** The identifier of a line, decomposed. *)
Definition line_decomposed (line : string) : result (Z * string) :=
  blob ← loads (JStr line);
  cid ← getitem "custom_id" blob;
  cid_s ← as_str cid;
  Decompose.decompose_id cid_s.

(** The payload of a line, decoded. *)
Definition line_payload (line : string) : result json :=
  blob ← loads (JStr line);
  content ← blob_content blob;
  loads content.

(** [for bid in COMPLETED: ...] of the download-and-parse cell. *)
Fixpoint collect_tables (client : Client) (bids : list string)
    (all_tables : list DataFrame) (fs : gmap string string)
  : result (list DataFrame * gmap string string) :=
  match bids with
  | [] => mret (all_tables, fs)
  | bid :: bids' =>
      let '(out_path, fs1) := download_output client bid fs in
      match out_path with
      | Some p =>
          table ← parse_batch_file fs1 p;
          collect_tables client bids' (all_tables ++ [table]) fs1
      | None => collect_tables client bids' all_tables fs1
      end
  end.

(** [pd.concat(all_tables, ignore_index=True)] *)
Definition pd_concat (all_tables : list DataFrame) : DataFrame :=
  concat all_tables.

(** The cell: collect, stop when nothing was parsed, else aggregate. *)
Definition retrieve_all (client : Client) (COMPLETED : gset string)
    (fs : gmap string string) : result (DataFrame * gmap string string) :=
  tf ← collect_tables client (elements COMPLETED) [] fs;
  match tf.1 with
  | [] => raise (ValueError "No completed batch files parsed!")
  | _ :: _ => mret (pd_concat tf.1, tf.2)
  end.

End WithDecoder.

End Parser.

(** ** Startup: the API-key cell *)

Module Startup.

Definition OPENAI_API_KEY : string := "OPENAI_API_KEY".
Definition key_file : string := "key/openai_key.txt".

(** The client object; building it is the first thing after the key
    check. *)
Record OpenAI : Type := mkOpenAI { api_key : string }.

(** The fallback: only when the variable is unset and the file exists. *)
Definition key_fallback (environ fs : gmap string string) : gmap string string :=
  match environ !! OPENAI_API_KEY, fs !! key_file with
  | None, Some text => <[OPENAI_API_KEY := PyStr.strip text]> environ
  | _, _ => environ
  end.

(** The cell: the environment afterwards and the client, or the
    error. *)
Definition startup (environ fs : gmap string string)
  : result (gmap string string * OpenAI) :=
  let environ1 := key_fallback environ fs in
  match environ1 !! OPENAI_API_KEY with
  | None | Some EmptyString =>
      raise (ValueError "Put your API key in .env or key/openai_key.txt")
  | Some key => mret (environ1, mkOpenAI key)
  end.

(** A source provides the key when it holds a non-empty token. *)
Definition env_provides (environ : gmap string string) : Prop :=
  ∃ key, environ !! OPENAI_API_KEY = Some key ∧ key ≠ EmptyString.

Definition file_provides (fs : gmap string string) : Prop :=
  ∃ text, fs !! key_file = Some text ∧ PyStr.strip text ≠ EmptyString.

End Startup.

(** ** Sample data *)

Module Examples.

(** Eight request lines and the input file that holds them. *)
Definition eight_lines : list string :=
  ["r1"; "r2"; "r3"; "r4"; "r5"; "r6"; "r7"; "r8"].

Definition eight_files : gmap string string :=
  {[ Chunker.jsonl_path := PyStr.join Builder.nl eight_lines ]}.

(** A small run: one handle completes in the second sweep, the other
    fails in the first. *)
Definition demo_ids : list string := ["batch_a"; "batch_b"].

Definition demo_api (round : nat) (bid : string) : string :=
  if decide (bid = "batch_b") then "failed"
  else if round <? 1 then "in_progress" else "completed".

(** A decoder table for two result lines and one payload: the first
    line is well formed, the identifier of the second has no separator. *)
Definition demo_message (content : string) : Parser.json :=
  Parser.JDict [("message", Parser.JDict [("content", Parser.JStr content)])].

Definition demo_blob (cid content : string) : Parser.json :=
  Parser.JDict
    [("custom_id", Parser.JStr cid);
     ("response",
      Parser.JDict
        [("body",
          Parser.JDict [("choices", Parser.JList [demo_message content])])])].

Definition demo_loads (s : string) : option Parser.json :=
  if decide (s = "line-1") then Some (demo_blob "claim1_Spanish" "payload-1")
  else if decide (s = "line-2") then Some (demo_blob "claim2Spanish" "payload-1")
  else if decide (s = "payload-1") then
    Some (Parser.JDict [("translation_claim", Parser.JStr "El calcio contribuye.")])
  else None.

Definition demo_out : string := "int_data/batch_out_demo/batch_a.jsonl".

Definition demo_bad_file : gmap string string :=
  {[ demo_out := "line-1" +:+ Builder.nl +:+ "line-2" ]}.

Definition demo_client : Parser.Client :=
  Parser.mkClient
    (λ bid, if decide (bid = "batch_a") then "completed" else "failed")
    (λ _, "line-1").

End Examples.

(** ** The build cell and the upload cell *)

Module Cells.

Section WithEncoder.

(** [json.dumps] on a request dictionary. *)
Variable json_dumps : Builder.RequestRecord → string.

(** What the [with] block has written when it closes: for each record, in
    order, [f.write(json.dumps(line) + "\n")]. *)
Definition write_lines (records : list Builder.RequestRecord) : string :=
  foldl (λ text rec, text +:+ json_dumps rec +:+ Builder.nl) EmptyString records.

(** The build cell: the input file is opened with "w" and holds the
    written lines afterwards. *)
Definition build_cell (df_claims : list Builder.Row) (TARGET_LANGS : list string)
    (fs : gmap string string) : gmap string string :=
  Files.write_text fs Chunker.jsonl_path
    (write_lines (Builder.build_jsonl df_claims TARGET_LANGS)).

End WithEncoder.

(** What the upload cell asks of the service, and its pause. *)
Inductive call : Type :=
  | FileCreate (path content : string)
  | BatchCreate (input_file_id : string)
  | Pause (seconds : nat).

(** The service's answers: the id of the file made by upload number [k]
    and the id of the batch made from it.  (The metadata of a batch is a
    description only and is left out.) *)
Record Service : Type := mkService {
  file_id : nat → string → string;
  batch_id : nat → string → string
}.

(** [for p in part_paths: ...] from upload number [k] on; [batch_ids] and
    [calls] are what has been collected so far.  Opening a part that does
    not exist raises. *)
Fixpoint submit_from (svc : Service) (fs : gmap string string) (k : nat)
    (part_paths : list string) (batch_ids : list string) (calls : list call)
  : result (list string * list call) :=
  match part_paths with
  | [] => mret (batch_ids, calls)
  | p :: part_paths' =>
      content ← Files.read_text fs p;
      let fid := file_id svc k content in
      let bid := batch_id svc k fid in
      submit_from svc fs (S k) part_paths' (batch_ids ++ [bid])
        (calls ++ [FileCreate p content; BatchCreate fid; Pause 1])
  end.

(** The upload cell: [batch_ids = []] and the loop. *)
Definition submit_parts (svc : Service) (fs : gmap string string)
    (part_paths : list string) : result (list string * list call) :=
  submit_from svc fs 0 part_paths [] [].

(** The contents handed to [files.create], in the order of the calls. *)
Fixpoint uploaded (calls : list call) : list string :=
  match calls with
  | [] => []
  | FileCreate _ content :: calls' => content :: uploaded calls'
  | _ :: calls' => uploaded calls'
  end.

End Cells.

(** ** Lines and download paths *)

Module Lines.

(** A character that is no line boundary. *)
Definition no_break (c : ascii) : bool := negb (Files.is_linebreak c).

(** The file [download_output] writes the output of a batch to. *)
Definition out_path (batch_id : string) : string :=
  Parser.out_dir +:+ "/" +:+ batch_id +:+ ".jsonl".

End Lines.

(** ** Reading the poller's log *)

Module PollerLog.

Definition is_print (e : Poller.event) : bool :=
  match e with Poller.Print _ _ _ => true | _ => false end.

Definition is_sleep (e : Poller.event) : bool :=
  match e with Poller.Sleep _ => true | _ => false end.

Fixpoint count (p : Poller.event → bool) (log : list Poller.event) : nat :=
  match log with
  | [] => 0
  | e :: log' => (if p e then 1 else 0) + count p log'
  end.

(** Seconds slept according to the log. *)
Fixpoint slept (log : list Poller.event) : nat :=
  match log with
  | [] => 0
  | Poller.Sleep seconds :: log' => seconds + slept log'
  | _ :: log' => slept log'
  end.

(** The three numbers of a progress line add up to [n]. *)
Definition line_total (n : nat) (e : Poller.event) : Prop :=
  match e with
  | Poller.Print done failed pending => done + failed + pending = n
  | _ => True
  end.

End PollerLog.

(** * Properties *)

(** ** Facts about the string builtins *)

Module PyStrFacts.
Import PyStr.

Lemma all_chars_impl (p q : ascii → bool) s :
  (∀ c, p c = true → q c = true) →
  all_chars p s = true → all_chars q s = true.
Proof.
  intros Hpq. induction s as [|c s IH]; simpl; [done|].
  rewrite !andb_true_iff. intros [Hc Hs]. split; auto.
Qed.

Lemma all_chars_app p s t :
  all_chars p (s +:+ t) = all_chars p s && all_chars p t.
Proof.
  induction s as [|c s IH]; simpl; [done|].
  by rewrite IH, andb_assoc.
Qed.

Lemma prefix_head_differs c0 old c s :
  differs c0 c = true → String.prefix (String c0 old) (String c s) = false.
Proof.
  unfold differs. intros Hc. simpl.
  destruct (ascii_dec c0 c) as [->|]; [|done].
  by rewrite Ascii.eqb_refl in Hc.
Qed.

(** No occurrence can start inside a run of characters that differ from
    the first character of the pattern. *)
Lemma contains_skip c0 old a b :
  all_chars (differs c0) a = true →
  contains (String c0 old) (a +:+ b) = contains (String c0 old) b.
Proof.
  induction a as [|c a IH]; [done|].
  cbn [all_chars]. rewrite andb_true_iff. intros [Hc Ha].
  change (String c a +:+ b) with (String c (a +:+ b)).
  cbn [contains]. rewrite (prefix_head_differs _ _ _ _ Hc). simpl. auto.
Qed.

Lemma contains_single_chars c0 s :
  contains (String c0 EmptyString) s = false ↔
  all_chars (differs c0) s = true.
Proof.
  induction s as [|c s IH]; [done|].
  cbn [contains all_chars]. unfold differs at 1.
  rewrite orb_false_iff, andb_true_iff, IH, negb_true_iff.
  cbn [String.prefix].
  destruct (ascii_dec c0 c) as [->|Hne].
  - rewrite Ascii.eqb_refl. destruct s; split; intros [? ?]; done.
  - assert (Ascii.eqb c c0 = false) as Hcc.
    { apply Ascii.eqb_neq. congruence. }
    rewrite Hcc. tauto.
Qed.

Lemma prefix_app old s : String.prefix old (old +:+ s) = true.
Proof.
  induction old as [|c old IH]; [by destruct s|].
  change (String c old +:+ s) with (String c (old +:+ s)).
  cbn [String.prefix]. by destruct (ascii_dec c c).
Qed.

Lemma replace_from_skip old new a s :
  replace_from old new (String.length a) (a +:+ s) = replace_from old new 0 s.
Proof. induction a as [|c a IH]; [done|]. exact IH. Qed.

(** An occurrence at the very start is replaced, and the scan goes on
    behind it. *)
Lemma replace_from_here c old new s :
  replace_from (String c old) new 0 (String c old +:+ s) =
  new +:+ replace_from (String c old) new 0 s.
Proof.
  change (String c old +:+ s) with (String c (old +:+ s)) at 1.
  cbn [replace_from].
  change (String c (old +:+ s)) with (String c old +:+ s).
  rewrite prefix_app.
  replace (String.length (String c old) - 1) with (String.length old)
    by (cbn [String.length]; lia).
  by rewrite replace_from_skip.
Qed.

(** Without an occurrence, [replace] returns the string itself. *)
Lemma replace_from_absent old new s :
  contains old s = false → replace_from old new 0 s = s.
Proof.
  induction s as [|c s IH]; [done|].
  cbn [contains]. rewrite orb_false_iff. intros [Hp Hs].
  cbn [replace_from]. rewrite Hp. f_equal. auto.
Qed.

(** Without an occurrence of the separator, [split] returns one part. *)
Lemma split_from_absent sep s :
  contains sep s = false → split_from sep 0 s = [s].
Proof.
  induction s as [|c s IH]; [done|].
  cbn [contains]. rewrite orb_false_iff. intros [Hp Hs].
  cbn [split_from]. rewrite Hp, (IH Hs). done.
Qed.

(** The first occurrence of a one-character separator ends the first
    part. *)
Lemma split_from_first c0 a b :
  all_chars (differs c0) a = true →
  split_from (String c0 EmptyString) 0 (a +:+ String c0 b) =
  a :: split_from (String c0 EmptyString) 0 b.
Proof.
  induction a as [|c a IH].
  - intros _. change (EmptyString +:+ String c0 b) with (String c0 b).
    cbn [split_from String.prefix].
    destruct (ascii_dec c0 c0); [|done]. by destruct b.
  - cbn [all_chars]. rewrite andb_true_iff. intros [Hc Ha].
    change (String c a +:+ String c0 b) with (String c (a +:+ String c0 b)).
    cbn [split_from]. rewrite (prefix_head_differs _ _ _ _ Hc), (IH Ha). done.
Qed.

(** Two compositions around a separator that is in neither left part
    agree only when both parts agree. *)
Lemma sep_unique c0 a1 a2 b1 b2 :
  all_chars (differs c0) a1 = true →
  all_chars (differs c0) a2 = true →
  a1 +:+ String c0 b1 = a2 +:+ String c0 b2 →
  a1 = a2 ∧ b1 = b2.
Proof.
  assert (∀ c s, all_chars (differs c0) (String c s) = true → c ≠ c0) as Hhd.
  { intros c s. cbn [all_chars]. unfold differs at 1.
    rewrite andb_true_iff, negb_true_iff, Ascii.eqb_neq. tauto. }
  revert a2. induction a1 as [|c a1 IH].
  - intros [|c' a2] _ H2; simpl.
    + by intros [= ->].
    + intros [= E1 E2]. by destruct (Hhd _ _ H2).
  - intros [|c' a2] H1 H2; simpl; intros [= E1 E2].
    + by destruct (Hhd _ _ H1).
    + cbn [all_chars] in H1, H2. apply andb_true_iff in H1 as [_ H1].
      apply andb_true_iff in H2 as [_ H2].
      destruct (IH _ H1 H2 E2) as [-> ->]. by subst.
Qed.

Lemma lstrip_with_id sp s :
  all_chars (λ c, negb (sp c)) s = true → lstrip_with sp s = s.
Proof.
  destruct s as [|c s]; [done|]. cbn [all_chars lstrip_with].
  rewrite andb_true_iff, negb_true_iff. by intros [-> _].
Qed.

Lemma rstrip_with_id sp s :
  all_chars (λ c, negb (sp c)) s = true → rstrip_with sp s = s.
Proof.
  induction s as [|c s IH]; [done|]. cbn [all_chars rstrip_with].
  rewrite andb_true_iff, negb_true_iff. intros [Hc Hs].
  rewrite (IH Hs), Hc. by destruct s.
Qed.

Lemma strip_with_id sp s :
  all_chars (λ c, negb (sp c)) s = true → strip_with sp s = s.
Proof.
  intros H. unfold strip_with. by rewrite lstrip_with_id, rstrip_with_id.
Qed.

Lemma uint_digits u :
  all_chars is_digit (NilEmpty.string_of_uint u) = true.
Proof.
  induction u as [|u IH|u IH|u IH|u IH|u IH|u IH|u IH|u IH|u IH|u IH];
    [done|..]; cbn [NilEmpty.string_of_uint all_chars]; by rewrite IH.
Qed.

Lemma str_of_int_chars n :
  all_chars int_char (str_of_int n) = true.
Proof.
  assert (∀ u, all_chars int_char (NilZero.string_of_uint u) = true) as Hu.
  { intros u. apply (all_chars_impl is_digit).
    - intros c Hc. unfold int_char. by rewrite Hc.
    - destruct u; try apply (uint_digits (_ _)); done. }
  unfold str_of_int. destruct (Z.to_int n); simpl; auto.
Qed.

(** An integer character is none of the characters the identifier
    format gives a meaning to, and no whitespace. *)
Lemma int_char_plain c :
  int_char c = true →
  differs "c" c = true ∧ differs "_" c = true ∧ negb (isspace_c c) = true.
Proof.
  destruct c as [[] [] [] [] [] [] [] []]; vm_compute; intros; by repeat split.
Qed.

Lemma digit_not_sign c :
  is_digit c = true → c ≠ "-"%char ∧ c ≠ "+"%char.
Proof.
  destruct c as [[] [] [] [] [] [] [] []]; vm_compute; intros; by repeat split.
Qed.

(** [int] reads back an unsigned literal. *)
Lemma int_of_str_digits u :
  u ≠ Decimal.Nil →
  int_of_str (NilEmpty.string_of_uint u) = inr (Z.of_uint u).
Proof.
  intros Hu. unfold int_of_str.
  rewrite strip_with_id.
  2:{ apply (all_chars_impl is_digit), uint_digits.
      intros c Hc. apply int_char_plain. unfold int_char. by rewrite Hc. }
  pose proof (uint_digits u) as Hd.
  pose proof (NilEmpty.usu u) as Hr.
  destruct (NilEmpty.string_of_uint u) as [|c s] eqn:Hs.
  { destruct u; done. }
  cbn [all_chars] in Hd. apply andb_true_iff in Hd as [Hc _].
  destruct (digit_not_sign c Hc) as [Hm Hp].
  assert (digits_value (String c s) = Some (Z.of_uint u)) as Hv.
  { unfold digits_value. by rewrite Hr. }
  destruct c as [[] [] [] [] [] [] [] []]; try done; by rewrite Hv.
Qed.

(** ... and a negative one. *)
Lemma int_of_str_neg_digits u :
  u ≠ Decimal.Nil →
  int_of_str (String "-" (NilEmpty.string_of_uint u)) = inr (- Z.of_uint u)%Z.
Proof.
  intros Hu. unfold int_of_str.
  rewrite strip_with_id.
  2:{ cbn [all_chars]. apply andb_true_iff. split; [done|].
      apply (all_chars_impl is_digit), uint_digits.
      intros c Hc. apply int_char_plain. unfold int_char. by rewrite Hc. }
  pose proof (NilEmpty.usu u) as Hr.
  unfold digits_value.
  destruct (NilEmpty.string_of_uint u) as [|c s] eqn:Hs.
  { destruct u; done. }
  by rewrite Hr.
Qed.

Lemma pos_to_uint_nonnil p : Pos.to_uint p ≠ Decimal.Nil.
Proof.
  intros H. pose proof (DecimalPos.Unsigned.of_to p) as Hp.
  rewrite H in Hp. done.
Qed.

Lemma nilzero_nonnil u :
  u ≠ Decimal.Nil → NilZero.string_of_uint u = NilEmpty.string_of_uint u.
Proof. by destruct u. Qed.

(** [int(str(n)) == n] *)
Lemma int_of_str_of_int n : int_of_str (str_of_int n) = inr n.
Proof.
  unfold str_of_int. destruct n as [|p|p]; [done| |]; simpl.
  - rewrite nilzero_nonnil, int_of_str_digits by apply pos_to_uint_nonnil.
    unfold Z.of_uint. by rewrite DecimalPos.Unsigned.of_to.
  - rewrite nilzero_nonnil, int_of_str_neg_digits by apply pos_to_uint_nonnil.
    unfold Z.of_uint. by rewrite DecimalPos.Unsigned.of_to.
Qed.

Lemma str_of_int_inj n m : str_of_int n = str_of_int m → n = m.
Proof.
  intros H. pose proof (int_of_str_of_int n) as Hn.
  rewrite H, int_of_str_of_int in Hn. congruence.
Qed.

End PyStrFacts.

(** ** Identifiers: composition and decomposition *)

Module IdentifierFacts.
Import PyStr PyStrFacts Builder Decompose.

Lemma compose_id_unfold k l :
  compose_id k l = "claim" +:+ (str_of_int k +:+ String "_" l).
Proof. done. Qed.

Lemma str_of_int_differs c0 k :
  (∀ c, int_char c = true → differs c0 c = true) →
  all_chars (differs c0) (str_of_int k) = true.
Proof. intros H. eapply all_chars_impl, str_of_int_chars. done. Qed.

Lemma str_of_int_no_sep k : all_chars (differs "_") (str_of_int k) = true.
Proof. apply str_of_int_differs. intros c Hc. by apply int_char_plain. Qed.

Lemma str_of_int_no_c k : all_chars (differs "c") (str_of_int k) = true.
Proof. apply str_of_int_differs. intros c Hc. by apply int_char_plain. Qed.

(** The identifier determines the row key and the variant: the first
    separator is the one the builder wrote. *)
Lemma compose_id_inj k1 l1 k2 l2 :
  compose_id k1 l1 = compose_id k2 l2 → k1 = k2 ∧ l1 = l2.
Proof.
  rewrite !compose_id_unfold. intros H.
  apply (String.app_inj "claim") in H.
  apply sep_unique in H as [Hk ->]; auto using str_of_int_no_sep.
  split; [by apply str_of_int_inj | done].
Qed.

(** What [replace] leaves of an identifier whose variant has no
    occurrence of the prefix word. *)
Lemma replace_compose_id k l :
  contains "claim" l = false →
  replace "claim" "" (compose_id k l) = str_of_int k +:+ String "_" l.
Proof.
  intros Hl. rewrite compose_id_unfold.
  unfold replace. rewrite replace_from_here.
  change (EmptyString +:+ ?s) with s.
  apply replace_from_absent.
  rewrite contains_skip by apply str_of_int_no_c.
  cbn [contains]. by rewrite Hl.
Qed.

Lemma decompose_compose_id k l :
  contains "_" l = false →
  contains "claim" l = false →
  decompose_id (compose_id k l) = inr (k, l).
Proof.
  intros Hsep Hword. unfold decompose_id.
  rewrite (replace_compose_id _ _ Hword). unfold split.
  rewrite split_from_first by apply str_of_int_no_sep.
  rewrite (split_from_absent _ _ Hsep). simpl.
  by rewrite int_of_str_of_int.
Qed.

End IdentifierFacts.

(** C1 as stated fails: the variant "claim" has no separator in it, the
    row key 1 has none either, and yet decomposing the identifier of the
    record built from them and composing again gives another string (the
    variant comes back empty). *)
Lemma decompose_left_inverse_fails :
  let row := Builder.mkRow 1 "Calcium contributes to normal bone health."
                             "Calcium" "Bone health" in
  let cid := Builder.custom_id (Builder.make_jsonl_line row "claim") in
  PyStr.contains "_" (PyStr.str_of_int (Builder.claim_id row)) = false ∧
  PyStr.contains "_" "claim" = false ∧
  Decompose.decompose_id cid = inr (1%Z, EmptyString) ∧
  Decompose.recompose cid = inr "claim1_" ∧
  Decompose.recompose cid ≠ inr cid.
Proof. by vm_compute. Qed.

(** C1, amended: for every record built by [make_jsonl_line] whose variant
    name contains neither the separator "_" nor the word "claim", the
    decomposition of [parse_batch_file] returns the row key and the variant
    the identifier was composed from, and composing them again yields the
    same identifier. *)
Theorem decompose_left_inverse (row : Builder.Row) (target_lang : string) :
  PyStr.contains "_" target_lang = false →
  PyStr.contains "claim" target_lang = false →
  let cid := Builder.custom_id (Builder.make_jsonl_line row target_lang) in
  Decompose.decompose_id cid = inr (Builder.claim_id row, target_lang) ∧
  Decompose.recompose cid = inr cid.
Proof.
  intros Hsep Hword cid. subst cid. cbn [Builder.make_jsonl_line Builder.custom_id].
  unfold Decompose.recompose.
  rewrite (IdentifierFacts.decompose_compose_id _ _ Hsep Hword). done.
Qed.

Lemma decompose_left_inverse_witness :
  let row := Builder.mkRow 2 "DHA intake contributes to the normal function of the brain."
                             "Docosahexaenoic acid (DHA)" "Brain function" in
  Decompose.decompose_id (Builder.custom_id (Builder.make_jsonl_line row "German"))
    = inr (2%Z, "German") ∧
  Decompose.recompose (Builder.custom_id (Builder.make_jsonl_line row "German"))
    = inr "claim2_German".
Proof.
  apply (decompose_left_inverse
           (Builder.mkRow 2 "DHA intake contributes to the normal function of the brain."
                            "Docosahexaenoic acid (DHA)" "Brain function")
           "German"); reflexivity.
Defined.

(** ** Request builder: count and uniqueness *)

Module BuilderFacts.
Import PyStr PyStrFacts Builder IdentifierFacts.

Lemma build_jsonl_cons row rows langs :
  build_jsonl (row :: rows) langs =
  map (make_jsonl_line row) langs ++ build_jsonl rows langs.
Proof. done. Qed.

Lemma build_jsonl_length rows langs :
  length (build_jsonl rows langs) = length rows * length langs.
Proof.
  induction rows as [|row rows IH]; [done|].
  rewrite build_jsonl_cons, length_app, length_map, IH. done.
Qed.

Lemma build_jsonl_elem rec rows langs :
  rec ∈ build_jsonl rows langs ↔
  ∃ row lang, row ∈ rows ∧ lang ∈ langs ∧ rec = make_jsonl_line row lang.
Proof.
  unfold build_jsonl. rewrite list_elem_of_In, in_flat_map. split.
  - intros (row & Hrow & Hrec). apply in_map_iff in Hrec as (lang & <- & Hlang).
    exists row, lang. by rewrite !list_elem_of_In.
  - intros (row & lang & Hrow & Hlang & ->). exists row.
    rewrite <- list_elem_of_In. split; [done|].
    apply in_map, list_elem_of_In, Hlang.
Qed.

Lemma ids_of_row row langs :
  map custom_id (map (make_jsonl_line row) langs) =
  map (compose_id (claim_id row)) langs.
Proof. by rewrite map_map. Qed.

Lemma build_jsonl_ids_nodup rows langs :
  NoDup (map claim_id rows) → NoDup langs →
  NoDup (map custom_id (build_jsonl rows langs)).
Proof.
  intros Hrows Hlangs. induction rows as [|row rows IH]; [constructor|].
  cbn [map] in Hrows. apply NoDup_cons in Hrows as [Hrow Hrows].
  rewrite build_jsonl_cons, map_app, ids_of_row. apply NoDup_app. split_and!.
  - apply (NoDup_fmap_2_strong (compose_id (claim_id row))); [|done].
    intros l1 l2 _ _ H. by apply compose_id_inj in H as [_ ?].
  - intros cid Hin1 Hin2.
    apply list_elem_of_fmap in Hin1 as (lang & -> & _).
    apply list_elem_of_fmap in Hin2 as (rec & Hcid & Hrec).
    apply build_jsonl_elem in Hrec as (row' & lang' & Hrow' & _ & ->).
    cbn [make_jsonl_line custom_id] in Hcid.
    apply compose_id_inj in Hcid as [Hk _].
    apply Hrow. rewrite Hk. by apply list_elem_of_fmap_2.
  - by apply IH.
Qed.

End BuilderFacts.

(** C2 as stated fails: two different rows that carry the same claim_id,
    with one language, give two records with one and the same identifier. *)
Lemma build_ids_unique_fails :
  let rows := [Builder.mkRow 1 "Calcium contributes to normal bone health."
                               "Calcium" "Bone health";
               Builder.mkRow 1 "Calcium is needed for normal teeth."
                               "Calcium" "Teeth"] in
  let langs := ["Spanish"] in
  NoDup rows ∧ NoDup langs ∧
  map Builder.custom_id (Builder.build_jsonl rows langs)
    = ["claim1_Spanish"; "claim1_Spanish"] ∧
  ¬ NoDup (map Builder.custom_id (Builder.build_jsonl rows langs)).
Proof.
  cbv zeta. split_and!.
  - by apply (bool_decide_unpack _); vm_compute.
  - by apply (bool_decide_unpack _); vm_compute.
  - by vm_compute.
  - intros H. apply NoDup_cons in H as [H _]. apply H. vm_compute. left.
Qed.

(** C2, amended: for every list of rows and every list of variants, the
    builder produces exactly rows × variants records, one for each (row,
    variant) combination; their identifiers are pairwise unique provided
    that the rows have pairwise distinct claim_id values and no variant is
    listed twice. *)
Theorem build_count_and_unique_ids (rows : list Builder.Row) (langs : list string) :
  length (Builder.build_jsonl rows langs) = length rows * length langs ∧
  (∀ row lang, row ∈ rows → lang ∈ langs →
     Builder.make_jsonl_line row lang ∈ Builder.build_jsonl rows langs) ∧
  (∀ rec, rec ∈ Builder.build_jsonl rows langs →
     ∃ row lang, row ∈ rows ∧ lang ∈ langs ∧ rec = Builder.make_jsonl_line row lang) ∧
  (NoDup (map Builder.claim_id rows) → NoDup langs →
     NoDup (map Builder.custom_id (Builder.build_jsonl rows langs))).
Proof.
  split_and!.
  - apply BuilderFacts.build_jsonl_length.
  - intros row lang Hrow Hlang. apply BuilderFacts.build_jsonl_elem. eauto.
  - intros rec Hrec. by apply BuilderFacts.build_jsonl_elem.
  - apply BuilderFacts.build_jsonl_ids_nodup.
Qed.

Lemma build_count_and_unique_ids_witness :
  length (Builder.build_jsonl Builder.df_claims Builder.TARGET_LANGS) = 9 ∧
  NoDup (map Builder.custom_id
           (Builder.build_jsonl Builder.df_claims Builder.TARGET_LANGS)).
Proof.
  destruct (build_count_and_unique_ids Builder.df_claims Builder.TARGET_LANGS)
    as (Hlen & _ & _ & Huniq).
  split; [exact Hlen|]. apply Huniq.
  - apply (bool_decide_unpack _). vm_compute. reflexivity.
  - apply (bool_decide_unpack _). vm_compute. reflexivity.
Defined.

(** ** Chunker *)

Module ChunkerFacts.
Import PyStr PyStrFacts Files Chunker.

Lemma slice_window {A : Type} (l : list A) (c i : nat) :
  slice l (i * c) ((i + 1) * c) = take c (drop (i * c) l).
Proof. unfold slice. f_equal. lia. Qed.

Lemma slice_length {A : Type} (l : list A) (c i : nat) :
  length (slice l (i * c) ((i + 1) * c)) = c `min` (length l - i * c).
Proof. by rewrite slice_window, length_take, length_drop. Qed.

(** The first [n] windows of width [c], laid end to end, are the first
    [n * c] lines. *)
Lemma concat_windows lines c n :
  concat (map (chunk_slice lines c) (seq 0 n)) = take (n * c) lines.
Proof.
  induction n as [|n IH]; [done|].
  rewrite seq_S, map_app, concat_app, IH. cbn [map concat].
  unfold chunk_slice. rewrite slice_window, app_nil_r, take_take_drop.
  f_equal. lia.
Qed.

(** The windows reach past the end of the list. *)
Lemma windows_cover NUM_PARTS lines :
  1 ≤ NUM_PARTS → length lines ≤ NUM_PARTS * chunk_size NUM_PARTS lines.
Proof.
  intros HN. unfold chunk_size.
  pose proof (Nat.div_mod_eq (length lines) NUM_PARTS) as Hdiv.
  pose proof (Nat.mod_upper_bound (length lines) NUM_PARTS) as Hmod.
  nia.
Qed.

Lemma part_lines_length NUM_PARTS lines :
  length (part_lines NUM_PARTS lines) = NUM_PARTS.
Proof.
  unfold part_lines. destruct (Nat.eqb_spec NUM_PARTS 1) as [->|_]; [done|].
  by rewrite length_map, length_seq.
Qed.

Lemma part_lines_concat NUM_PARTS lines :
  1 ≤ NUM_PARTS → concat (part_lines NUM_PARTS lines) = lines.
Proof.
  intros HN. unfold part_lines.
  destruct (Nat.eqb_spec NUM_PARTS 1) as [->|_]; [apply app_nil_r|].
  rewrite concat_windows. apply take_ge, windows_cover, HN.
Qed.

Lemma str_of_int_no_dot k : all_chars (differs ".") (str_of_int k) = true.
Proof.
  eapply all_chars_impl, str_of_int_chars.
  intros c. destruct c as [[] [] [] [] [] [] [] []]; by vm_compute.
Qed.

(** Different parts get different files. *)
Lemma part_path_inj i j : part_path i = part_path j → i = j.
Proof.
  unfold part_path. intros H.
  apply (String.app_inj part_dir), (String.app_inj "/claims_part") in H.
  apply sep_unique in H as [H _]; auto using str_of_int_no_dot.
  apply str_of_int_inj in H. lia.
Qed.

(** What the loop over [range(n)] has written and collected. *)
Lemma write_parts_spec lines c fs n :
  let r := foldl (write_part lines c) ([], fs) (seq 0 n) in
  r.1 = map part_path (seq 0 n) ∧
  (∀ i, i < n →
     r.2 !! part_path i = Some (join Builder.nl (chunk_slice lines c i))) ∧
  (∀ p, (∀ i, i < n → p ≠ part_path i) → r.2 !! p = fs !! p).
Proof.
  induction n as [|n IH]; cbv zeta.
  - split_and!; [done|lia|done].
  - rewrite seq_S, foldl_snoc, map_app. cbn [map].
    destruct IH as (Hpaths & Hwritten & Hother).
    destruct (foldl _ _ (seq 0 n)) as [paths fs1]. cbn [fst snd] in *.
    unfold write_part, write_text. cbn [fst snd plus].
    split_and!.
    + by rewrite Hpaths.
    + intros i Hi. destruct (decide (i = n)) as [->|Hne].
      * apply lookup_insert_eq.
      * rewrite lookup_insert_ne; [apply Hwritten; lia|].
        intros Heq. apply part_path_inj in Heq. lia.
    + intros p Hp. rewrite lookup_insert_ne; [apply Hother|].
      * intros i Hi. apply Hp. lia.
      * intros Heq. apply (Hp n); [lia|done].
Qed.

(** The else branch of the cell. *)
Lemma split_parts_many NUM_PARTS fs text :
  2 ≤ NUM_PARTS → fs !! jsonl_path = Some text →
  split_parts NUM_PARTS fs =
  inr (foldl (write_part (splitlines text)
                (chunk_size NUM_PARTS (splitlines text)))
         ([], fs) (seq 0 NUM_PARTS)).
Proof.
  intros HN Hfs. unfold split_parts, read_text.
  destruct (Nat.eqb_spec NUM_PARTS 1) as [->|_]; [lia|].
  rewrite Hfs. cbn.
  destruct (Nat.eqb_spec NUM_PARTS 0) as [->|_]; [lia|]. done.
Qed.

End ChunkerFacts.

(** C3: for every list of request lines and every chunk count
    NUM_PARTS >= 1 there are NUM_PARTS parts and their line lists,
    concatenated in order, are the original line list: every line once,
    order kept.  The cell returns NUM_PARTS paths, and the file of part
    number i holds the i-th of these line lists (the input file itself
    when NUM_PARTS is 1, the joined slice otherwise). *)
Theorem chunks_partition (NUM_PARTS : nat) :
  1 ≤ NUM_PARTS →
  (∀ lines : list string,
     length (Chunker.part_lines NUM_PARTS lines) = NUM_PARTS ∧
     concat (Chunker.part_lines NUM_PARTS lines) = lines) ∧
  (∀ (fs : gmap string string) (text : string),
     fs !! Chunker.jsonl_path = Some text →
     ∃ part_paths fs',
       Chunker.split_parts NUM_PARTS fs = inr (part_paths, fs') ∧
       length part_paths = NUM_PARTS ∧
       ∀ i p ls,
         part_paths !! i = Some p →
         Chunker.part_lines NUM_PARTS (Files.splitlines text) !! i = Some ls →
         fs' !! p = Some (if decide (NUM_PARTS = 1) then text
                          else PyStr.join Builder.nl ls)).
Proof.
  intros HN. split.
  { intros lines. split.
    - apply ChunkerFacts.part_lines_length.
    - by apply ChunkerFacts.part_lines_concat. }
  intros fs text Hfs. set (lines := Files.splitlines text).
  destruct (decide (NUM_PARTS = 1)) as [->|Hne].
  - exists [Chunker.jsonl_path], fs. split_and!; try done.
    intros [|i] p ls; [|done]. by intros [= <-] _.
  - pose proof (ChunkerFacts.write_parts_spec lines
                  (Chunker.chunk_size NUM_PARTS lines) fs NUM_PARTS) as Hspec.
    cbv zeta in Hspec. destruct Hspec as (Hpaths & Hwritten & _).
    destruct (foldl _ _ _) as [part_paths fs'] eqn:Hfold. cbn [fst snd] in *.
    exists part_paths, fs'. split_and!.
    + rewrite (ChunkerFacts.split_parts_many _ _ text) by (done || lia).
      fold lines. by rewrite Hfold.
    + by rewrite Hpaths, length_map, length_seq.
    + intros i p ls Hp Hls. subst part_paths.
      apply list_lookup_fmap_Some in Hp as (j & -> & Hj).
      apply lookup_seq in Hj as [-> Hi]. cbn in Hls.
      unfold Chunker.part_lines in Hls.
      destruct (Nat.eqb_spec NUM_PARTS 1) as [?|_]; [done|].
      apply list_lookup_fmap_Some in Hls as (j & -> & Hj).
      apply lookup_seq in Hj as [-> _]. by apply Hwritten.
Qed.

Lemma chunks_partition_witness :
  (length (Chunker.part_lines 3 Examples.eight_lines) = 3 ∧
   concat (Chunker.part_lines 3 Examples.eight_lines) = Examples.eight_lines) ∧
  ∃ part_paths fs',
    Chunker.split_parts 3 Examples.eight_files = inr (part_paths, fs') ∧
    length part_paths = 3.
Proof.
  destruct (chunks_partition 3) as [Hlines Hcell]; [lia|].
  split; [apply Hlines|].
  destruct (Hcell Examples.eight_files
              (PyStr.join Builder.nl Examples.eight_lines))
    as (part_paths & fs' & Hrun & Hlen & _); [reflexivity|].
  exists part_paths, fs'. split; [exact Hrun | exact Hlen].
Defined.

(** C8: with NUM_PARTS = 1 the cell returns the input file as the single
    part and writes nothing: no file is created or changed, so the lines of
    the part are the lines of the input, as they are. *)
Theorem single_part_is_input (fs : gmap string string) :
  Chunker.split_parts 1 fs = inr ([Chunker.jsonl_path], fs) ∧
  ∀ lines, Chunker.part_lines 1 lines = [lines].
Proof. done. Qed.

(** C10: with NUM_PARTS > 1 part number i is the slice
    lines[i*chunk:(i+1)*chunk] of the fixed width
    chunk = len(lines) // NUM_PARTS + 1, cut off at the end of the list;
    8 lines in 4 parts give the sizes 3, 3, 2, 0; and a part whose slice is
    empty is written all the same (as an empty file) and its path is in
    the list of parts. *)
Theorem fixed_width_chunks (NUM_PARTS : nat) (fs : gmap string string) (text : string) :
  2 ≤ NUM_PARTS →
  fs !! Chunker.jsonl_path = Some text →
  let lines := Files.splitlines text in
  let chunk := length lines / NUM_PARTS + 1 in
  ∃ part_paths fs',
    Chunker.split_parts NUM_PARTS fs = inr (part_paths, fs') ∧
    length part_paths = NUM_PARTS ∧
    (∀ i, i < NUM_PARTS →
       let part := Chunker.slice lines (i * chunk) ((i + 1) * chunk) in
       part = take chunk (drop (i * chunk) lines) ∧
       length part = chunk `min` (length lines - i * chunk) ∧
       part_paths !! i = Some (Chunker.part_path i) ∧
       fs' !! Chunker.part_path i = Some (PyStr.join Builder.nl part) ∧
       (part = [] → fs' !! Chunker.part_path i = Some EmptyString)) ∧
    map length (Chunker.part_lines 4 Examples.eight_lines) = [3; 3; 2; 0].
Proof.
  intros HN Hfs lines chunk.
  pose proof (ChunkerFacts.write_parts_spec lines
                (Chunker.chunk_size NUM_PARTS lines) fs NUM_PARTS) as Hspec.
  cbv zeta in Hspec. destruct Hspec as (Hpaths & Hwritten & _).
  destruct (foldl _ _ _) as [part_paths fs'] eqn:Hfold. cbn [fst snd] in *.
  exists part_paths, fs'. split_and!.
  - rewrite (ChunkerFacts.split_parts_many _ _ text) by done.
    fold lines. by rewrite Hfold.
  - by rewrite Hpaths, length_map, length_seq.
  - intros i Hi. split_and!.
    + apply ChunkerFacts.slice_window.
    + apply ChunkerFacts.slice_length.
    + rewrite Hpaths. apply list_lookup_fmap_Some. exists i.
      split; [done|]. by apply lookup_seq.
    + by apply Hwritten.
    + intros Hempty. specialize (Hwritten i Hi).
      unfold Chunker.chunk_slice, Chunker.chunk_size in Hwritten.
      fold lines chunk in Hwritten. by rewrite Hempty in Hwritten.
  - reflexivity.
Qed.

Lemma fixed_width_chunks_witness :
  ∃ part_paths fs',
    Chunker.split_parts 4 Examples.eight_files = inr (part_paths, fs') ∧
    part_paths !! 3 = Some "int_data/batch_parts_demo/claims_part4.jsonl" ∧
    fs' !! "int_data/batch_parts_demo/claims_part4.jsonl" = Some EmptyString.
Proof.
  destruct (fixed_width_chunks 4 Examples.eight_files
              (PyStr.join Builder.nl Examples.eight_lines))
    as (part_paths & fs' & Hcell & _ & Hparts & _).
  - lia.
  - reflexivity.
  - exists part_paths, fs'. destruct (Hparts 3) as (_ & _ & Hp & _ & Hempty); [lia|].
    split_and!; [exact Hcell | exact Hp | apply Hempty; reflexivity].
Defined.

(** ** Poller *)

Module PollerFacts.
Import Poller.

(** One handle, set by set. *)
Lemma visit_spec status s bid :
  let s' := visit status s bid in
  (∀ b, b ∈ PENDING s' ↔
        b ∈ PENDING s ∧
        ¬ (b = bid ∧ (status b = "completed" ∨ status b = "failed"))) ∧
  (∀ b, b ∈ COMPLETED s' ↔
        b ∈ COMPLETED s ∨ (b = bid ∧ status b = "completed")) ∧
  (∀ b, b ∈ FAILED s' ↔
        b ∈ FAILED s ∨ (b = bid ∧ status b = "failed")) ∧
  log s' = log s ++ [retrieved status bid].
Proof.
  cbv zeta. unfold visit, retrieved.
  destruct (decide (status bid = "completed")) as [Hc|Hc];
    [|destruct (decide (status bid = "failed")) as [Hf|Hf]];
    cbn [PENDING COMPLETED FAILED log];
    (split_and!; [| | |done]); intros b;
    rewrite ?elem_of_difference, ?elem_of_union, ?elem_of_singleton;
    (split; [intros ?|intros ?]);
    destruct (decide (b = bid)) as [->|Hb];
    try rewrite Hc in *; try rewrite Hf in *; naive_solver.
Qed.

(** One pass over a list of handles, set by set. *)
Lemma foldl_visit_spec status l s :
  let s' := foldl (visit status) s l in
  (∀ b, b ∈ PENDING s' ↔
        b ∈ PENDING s ∧
        ¬ (b ∈ l ∧ (status b = "completed" ∨ status b = "failed"))) ∧
  (∀ b, b ∈ COMPLETED s' ↔
        b ∈ COMPLETED s ∨ (b ∈ l ∧ status b = "completed")) ∧
  (∀ b, b ∈ FAILED s' ↔
        b ∈ FAILED s ∨ (b ∈ l ∧ status b = "failed")) ∧
  log s' = log s ++ map (retrieved status) l.
Proof.
  revert s. induction l as [|bid l IH]; intros s; cbv zeta.
  - cbn [foldl map]. rewrite app_nil_r. set_solver.
  - cbn [foldl map]. specialize (IH (visit status s bid)). cbv zeta in IH.
    destruct IH as (HP & HC & HF & HL).
    destruct (visit_spec status s bid) as (HP1 & HC1 & HF1 & HL1).
    split_and!.
    + intros b. rewrite HP, HP1, elem_of_cons. tauto.
    + intros b. rewrite HC, HC1, elem_of_cons. tauto.
    + intros b. rewrite HF, HF1, elem_of_cons. tauto.
    + by rewrite HL, HL1, <- app_assoc.
Qed.

(** One sweep, set by set. *)
Lemma sweep_spec status s :
  let s' := sweep status s in
  (∀ b, b ∈ PENDING s' ↔ b ∈ PENDING s ∧ ¬ terminal (status b)) ∧
  (∀ b, b ∈ COMPLETED s' ↔
        b ∈ COMPLETED s ∨ (b ∈ PENDING s ∧ status b = "completed")) ∧
  (∀ b, b ∈ FAILED s' ↔
        b ∈ FAILED s ∨ (b ∈ PENDING s ∧ status b = "failed")).
Proof.
  cbv zeta.
  destruct (foldl_visit_spec status (elements (PENDING s)) s) as (HP & HC & HF & _).
  unfold sweep, terminal. cbn [PENDING COMPLETED FAILED log].
  case_decide; cbn [PENDING COMPLETED FAILED];
    (split_and!; intros b;
     [ rewrite HP | rewrite HC | rewrite HF ]; rewrite elem_of_elements; tauto).
Qed.

Lemma sweep_log status s :
  ∃ tail,
    log (sweep status s) =
    log s ++ map (retrieved status) (elements (PENDING s)) ++ tail.
Proof.
  destruct (foldl_visit_spec status (elements (PENDING s)) s) as (_ & _ & _ & HL).
  unfold sweep. cbn [PENDING log]. rewrite HL.
  case_decide; cbn [log]; rewrite <- ?app_assoc; eauto.
Qed.

(** The progress line is the last thing a sweep prints when it leaves
    nothing pending. *)
Lemma sweep_last_line status s :
  PENDING (sweep status s) = ∅ →
  last (log (sweep status s)) =
  Some (Print (size (COMPLETED (sweep status s)))
              (size (FAILED (sweep status s))) 0).
Proof.
  unfold sweep. cbn [PENDING log]. case_decide as Hp; cbn [PENDING COMPLETED FAILED log].
  - intros _. by rewrite last_snoc, Hp, size_empty.
  - done.
Qed.

Lemma partition_init batch_ids : partition batch_ids (init batch_ids).
Proof. split; unfold init; cbn [PENDING COMPLETED FAILED]; set_solver. Qed.

Lemma partition_sweep batch_ids status s :
  partition batch_ids s → partition batch_ids (sweep status s).
Proof.
  intros [Hcov Hpc Hpf Hcf].
  destruct (sweep_spec status s) as (HP & HC & HF). unfold terminal in HP.
  assert (∀ b, status b = "completed" → status b ≠ "failed") as Hexcl
    by (intros b ->; done).
  split; intros b; rewrite ?HP, ?HC, ?HF.
  - rewrite Hcov.
    destruct (decide (status b = "completed")), (decide (status b = "failed"));
      naive_solver.
  - specialize (Hpc b). naive_solver.
  - specialize (Hpf b). naive_solver.
  - specialize (Hpc b). specialize (Hpf b). specialize (Hcf b).
    specialize (Hexcl b). naive_solver.
Qed.

(** The last turn of [run]. *)
Lemma run_S_last k api round s :
  run (S k) api round s =
  let s' := run k api round s in
  if decide (PENDING s' = ∅) then s' else sweep (api (round + k)) s'.
Proof.
  revert round s. induction k as [|k IH]; intros round s.
  - cbn [run]. by rewrite Nat.add_0_r.
  - change (run (S (S k)) api round s) with
      (if decide (PENDING s = ∅) then s
       else run (S k) api (S round) (sweep (api round) s)).
    rewrite IH. cbv zeta. cbn [run].
    case_decide as Hs; [by rewrite decide_True|].
    by replace (S round + k) with (round + S k) by lia.
Qed.

(** The loop returns the state [run] reaches, when nothing is pending
    there. *)
Lemma poll_loop_run fuel api round s :
  poll_loop fuel api round s =
  if decide (PENDING (run fuel api round s) = ∅)
  then Some (run fuel api round s) else None.
Proof.
  revert round s. induction fuel as [|fuel IH]; intros round s; cbn [poll_loop run].
  - done.
  - case_decide as Hs; [by rewrite decide_True|]. apply IH.
Qed.

Lemma partition_run batch_ids k api :
  partition batch_ids (run k api 0 (init batch_ids)).
Proof.
  induction k as [|k IH]; [apply partition_init|].
  rewrite run_S_last. cbv zeta. case_decide; [done|].
  by apply partition_sweep.
Qed.

Lemma terminal_iff_none_pending batch_ids s :
  partition batch_ids s →
  all_terminal batch_ids s ↔ PENDING s = ∅.
Proof.
  intros [Hcov Hpc Hpf _]. unfold all_terminal. split.
  - intros Hall. apply elem_of_equiv_empty_L. intros b Hb.
    destruct (Hall b) as [Hc|Hf]; [apply Hcov; auto| |].
    + by apply (Hpc b).
    + by apply (Hpf b).
  - intros Hempty b Hb. apply Hcov in Hb. set_solver.
Qed.

(** A handle sits in COMPLETED (FAILED) only after a sweep in which it
    was pending and the service answered "completed" ("failed"). *)
Lemma moved_after_query batch_ids api k bid :
  let s := run k api 0 (init batch_ids) in
  (bid ∈ COMPLETED s →
     (∃ j, j < k ∧ bid ∈ PENDING (run j api 0 (init batch_ids)) ∧
           api j bid = "completed") ∧
     Retrieve bid "completed" ∈ log s) ∧
  (bid ∈ FAILED s →
     (∃ j, j < k ∧ bid ∈ PENDING (run j api 0 (init batch_ids)) ∧
           api j bid = "failed") ∧
     Retrieve bid "failed" ∈ log s).
Proof.
  cbv zeta. induction k as [|k IH].
  - cbn [run init COMPLETED FAILED]. set_solver.
  - rewrite run_S_last. cbv zeta.
    set (s := run k api 0 (init batch_ids)) in *.
    case_decide as Hp.
    { destruct IH as [IHc IHf]. split; intros Hb.
      - destruct (IHc Hb) as [(j & Hj & ?) ?]. split; [exists j|]; auto with lia.
      - destruct (IHf Hb) as [(j & Hj & ?) ?]. split; [exists j|]; auto with lia. }
    destruct (sweep_spec (api (0 + k)) s) as (_ & HC & HF).
    destruct (sweep_log (api (0 + k)) s) as (tail & HL).
    cbn [plus] in *.
    assert (∀ st, bid ∈ PENDING s → api k bid = st →
                  Retrieve bid st ∈ log (sweep (api k) s)) as Hquery.
    { intros st Hb <-. rewrite HL, !elem_of_app. right. left.
      apply (list_elem_of_fmap_2 (retrieved (api k))). by apply elem_of_elements. }
    assert (∀ e, e ∈ log s → e ∈ log (sweep (api k) s)) as Hkeep.
    { intros e He. rewrite HL, elem_of_app. by left. }
    destruct IH as [IHc IHf]. split; intros Hb.
    + apply HC in Hb as [Hb|[Hb Hst]].
      * destruct (IHc Hb) as [(j & Hj & ?) ?]. split; [exists j|]; auto with lia.
      * split; [exists k|]; auto.
    + apply HF in Hb as [Hb|[Hb Hst]].
      * destruct (IHf Hb) as [(j & Hj & ?) ?]. split; [exists j|]; auto with lia.
      * split; [exists k|]; auto.
Qed.

(** A handle whose queried status is not terminal stays pending. *)
Lemma stays_pending batch_ids api k bid :
  bid ∈ PENDING (run k api 0 (init batch_ids)) →
  api k bid ≠ "completed" → api k bid ≠ "failed" →
  bid ∈ PENDING (run (S k) api 0 (init batch_ids)).
Proof.
  intros Hb Hc Hf. rewrite run_S_last. cbv zeta.
  case_decide as Hp; [done|].
  apply sweep_spec. unfold terminal. cbn [plus]. tauto.
Qed.

(** A handle still pending after [k] turns was never answered with a
    terminal status. *)
Lemma pending_never_terminal batch_ids api k bid :
  bid ∈ PENDING (run k api 0 (init batch_ids)) →
  ∀ j, j < k → ¬ terminal (api j bid).
Proof.
  induction k as [|k IH]; [lia|].
  rewrite run_S_last. cbv zeta. case_decide as Hp.
  - rewrite Hp. intros Hb. by apply not_elem_of_empty in Hb.
  - intros Hb. apply sweep_spec in Hb as [Hb Hk]. cbn [plus] in Hk.
    intros j Hj. destruct (decide (j = k)) as [->|]; [done|].
    apply IH; [done|lia].
Qed.

(** Once every handle has been answered with a terminal status, the loop
    has returned. *)
Lemma poll_loop_returns batch_ids api K :
  (∀ bid, bid ∈ batch_ids → ∃ j, j < K ∧ terminal (api j bid)) →
  poll_loop K api 0 (init batch_ids) = Some (run K api 0 (init batch_ids)).
Proof.
  intros Hall. rewrite poll_loop_run. rewrite decide_True; [done|].
  apply elem_of_equiv_empty_L. intros bid Hb.
  destruct (Hall bid) as (j & Hj & Hterm).
  - apply (covers _ _ (partition_run batch_ids K api)). by left.
  - by apply (pending_never_terminal batch_ids api K bid Hb j).
Qed.

(** The state the loop returns is the initial one or the result of a
    sweep. *)
Lemma poll_loop_result fuel api round s s' :
  poll_loop fuel api round s = Some s' →
  PENDING s' = ∅ ∧ (s' = s ∨ ∃ status s1, s' = sweep status s1).
Proof.
  revert round s. induction fuel as [|fuel IH]; intros round s; cbn [poll_loop].
  - case_decide; [|done]. intros [= <-]. auto.
  - case_decide as Hs; [intros [= <-]; auto|].
    intros Hloop. apply IH in Hloop as [Hp [->|Hsw]]; eauto.
Qed.

End PollerFacts.

(** C4: started on the submitted handles, the loop returns exactly when
    every handle is in COMPLETED or FAILED (with [fuel] sweeps allowed it
    returns the state reached iff all handles are terminal there, and it
    does return once every handle has been answered "completed" or
    "failed"); a handle is in COMPLETED (FAILED) only if an earlier sweep
    found it pending and its status query answered "completed" ("failed"),
    and that query is in the log; a pending handle whose query answers
    anything else is pending after the sweep. *)
Theorem poll_terminates_when_all_terminal
    (batch_ids : list string) (api : nat → string → string) :
  let s0 := Poller.init batch_ids in
  (∀ fuel s',
     Poller.poll_loop fuel api 0 s0 = Some s' ↔
     s' = Poller.run fuel api 0 s0 ∧ Poller.all_terminal batch_ids s') ∧
  (∀ fuel,
     (∀ bid, bid ∈ batch_ids → ∃ j, j < fuel ∧ Poller.terminal (api j bid)) →
     ∃ s', Poller.poll_loop fuel api 0 s0 = Some s') ∧
  (∀ k bid,
     (bid ∈ Poller.COMPLETED (Poller.run k api 0 s0) →
        (∃ j, j < k ∧ bid ∈ Poller.PENDING (Poller.run j api 0 s0) ∧
              api j bid = "completed") ∧
        Poller.Retrieve bid "completed" ∈ Poller.log (Poller.run k api 0 s0)) ∧
     (bid ∈ Poller.FAILED (Poller.run k api 0 s0) →
        (∃ j, j < k ∧ bid ∈ Poller.PENDING (Poller.run j api 0 s0) ∧
              api j bid = "failed") ∧
        Poller.Retrieve bid "failed" ∈ Poller.log (Poller.run k api 0 s0))) ∧
  (∀ k bid,
     bid ∈ Poller.PENDING (Poller.run k api 0 s0) →
     api k bid ≠ "completed" → api k bid ≠ "failed" →
     bid ∈ Poller.PENDING (Poller.run (S k) api 0 s0)).
Proof.
  cbv zeta. split_and!.
  - intros fuel s'. rewrite PollerFacts.poll_loop_run.
    pose proof (PollerFacts.partition_run batch_ids fuel api) as Hpart.
    split.
    + case_decide as Hp; [|done]. intros [= <-]. split; [done|].
      by apply (PollerFacts.terminal_iff_none_pending batch_ids).
    + intros [-> Hall].
      apply (PollerFacts.terminal_iff_none_pending batch_ids) in Hall; [|done].
      by rewrite decide_True.
  - intros fuel Hall. eexists. by apply PollerFacts.poll_loop_returns.
  - intros k bid. apply (PollerFacts.moved_after_query batch_ids api k bid).
  - intros k bid. apply PollerFacts.stays_pending.
Qed.

Lemma poll_terminates_when_all_terminal_witness :
  ∃ s',
    Poller.poll_loop 2 Examples.demo_api 0 (Poller.init Examples.demo_ids)
      = Some s' ∧
    Poller.all_terminal Examples.demo_ids s' ∧
    Poller.Retrieve "batch_a" "completed" ∈ Poller.log s'.
Proof.
  pose proof (poll_terminates_when_all_terminal
                Examples.demo_ids Examples.demo_api)
    as (Hloop & Hreturns & Hmoved & _).
  destruct (Hreturns 2) as [s' Hrun].
  { intros bid Hbid. apply elem_of_cons in Hbid as [->|Hbid].
    - exists 1. split; [lia|]. left. reflexivity.
    - apply list_elem_of_singleton in Hbid as ->.
      exists 0. split; [lia|]. right. reflexivity. }
  exists s'. split_and!.
  - exact Hrun.
  - apply (Hloop 2), Hrun.
  - apply (Hloop 2) in Hrun as [-> _].
    apply (Hmoved 2 "batch_a"). vm_compute. reflexivity.
Defined.

(** ** Result parser and aggregation *)

Module ParserFacts.
Import Parser.

Lemma raises_inl {A : Type} (e : exn) : raises (inl e : result A).
Proof. by exists e. Qed.

Lemma raises_not_inr {A : Type} (m : result A) (a : A) :
  raises m → m ≠ inr a.
Proof. intros [e ->]. done. Qed.

Lemma bind_inr {A B : Type} (m : result A) (k : A → result B) (b : B) :
  m ≫= k = inr b → ∃ a, m = inr a ∧ k a = inr b.
Proof. destruct m as [e|a]; [done|]. eauto. Qed.

Lemma bind_raises {A B : Type} (m : result A) (k : A → result B) :
  raises m → raises (m ≫= k).
Proof. intros [e ->]. by exists e. Qed.

Lemma bind_of_inr {A B : Type} (a : A) (k : A → result B) :
  (inr a : result A) ≫= k = k a.
Proof. done. Qed.

(** Run a bind whose left side is known by the equation [H]. *)
Ltac step_bind H := rewrite ?bind_of_inr; cbv beta; rewrite H, ?bind_of_inr; cbv beta.

Section WithDecoder.
Variable json_loads : string → option json.

(** A line that yields a row has an identifier that decomposes and a
    payload that decodes. *)
Lemma parse_line_inr line row :
  parse_line json_loads line = inr row →
  (∃ kl, line_decomposed json_loads line = inr kl) ∧
  (∃ payload, line_payload json_loads line = inr payload).
Proof.
  unfold parse_line, line_decomposed, line_payload. intros H.
  apply bind_inr in H as (blob & -> & H).
  apply bind_inr in H as (cid & Hcid & H).
  apply bind_inr in H as (content & Hcontent & H).
  apply bind_inr in H as (payload & Hpayload & H).
  apply bind_inr in H as (cid_s & Hstr & H).
  apply bind_inr in H as (kl & Hkl & H).
  split.
  - exists kl. by step_bind Hcid; step_bind Hstr.
  - exists payload. by step_bind Hcontent.
Qed.

Lemma parse_line_bad line :
  raises (line_decomposed json_loads line) ∨
  raises (line_payload json_loads line) →
  raises (parse_line json_loads line).
Proof.
  intros Hbad. destruct (parse_line json_loads line) as [e|row] eqn:Hline.
  - apply raises_inl.
  - apply parse_line_inr in Hline as [[kl Hkl] [payload Hpayload]].
    destruct Hbad as [[e He]|[e He]]; congruence.
Qed.

(** The loop stops at the first line that raises, whatever rows it has
    built before. *)
Lemma parse_lines_abort lines rows line :
  line ∈ lines → raises (parse_line json_loads line) →
  raises (parse_lines json_loads lines rows).
Proof.
  intros Hin Hbad. revert rows.
  induction lines as [|l lines IH]; intros rows; [by apply elem_of_nil in Hin|].
  cbn [parse_lines].
  destruct (parse_line json_loads l) as [e|row] eqn:Hl; [apply raises_inl|].
  cbn. apply elem_of_cons in Hin as [->|Hin].
  - destruct Hbad as [e He]. congruence.
  - by apply IH.
Qed.

(** A loop over handles none of which downloads leaves the list of
    tables as it was. *)
Lemma collect_tables_none client bids all_tables fs :
  (∀ bid, bid ∈ bids → batch_status client bid ≠ "completed") →
  collect_tables json_loads client bids all_tables fs = inr (all_tables, fs).
Proof.
  induction bids as [|bid bids IH]; intros Hnone; [done|].
  cbn [collect_tables]. unfold download_output.
  rewrite decide_True by (apply Hnone; left).
  apply IH. intros b Hb. apply Hnone. by right.
Qed.

(** The loop only looks at the handles it is given. *)
Lemma collect_tables_ext client1 client2 bids all_tables fs :
  (∀ bid, bid ∈ bids →
     batch_status client1 bid = batch_status client2 bid ∧
     output_text client1 bid = output_text client2 bid) →
  collect_tables json_loads client1 bids all_tables fs =
  collect_tables json_loads client2 bids all_tables fs.
Proof.
  revert all_tables fs.
  induction bids as [|bid bids IH]; intros all_tables fs Hsame; [done|].
  cbn [collect_tables]. unfold download_output.
  destruct (Hsame bid) as [-> ->]; [left|].
  assert (∀ t f, collect_tables json_loads client1 bids t f =
                 collect_tables json_loads client2 bids t f) as Hrest.
  { intros t f. apply IH. intros b Hb. apply Hsame. by right. }
  case_decide; [apply Hrest|].
  destruct (parse_batch_file _ _ _) as [e|table]; [done|]. cbn. apply Hrest.
Qed.

End WithDecoder.

End ParserFacts.

(** C9: when some line of an output file has an identifier that does not
    decompose (no string identifier, or after removing "claim" it does not
    split on "_" into two parts the first of which [int] accepts) or a
    payload that does not decode, [parse_batch_file] raises: it returns no
    table, whatever the other lines are. *)
Theorem bad_line_aborts_file
    (json_loads : string → option Parser.json)
    (fs : gmap string string) (path text line : string) :
  fs !! path = Some text →
  line ∈ Files.splitlines text →
  raises (Parser.line_decomposed json_loads line) ∨
  raises (Parser.line_payload json_loads line) →
  raises (Parser.parse_batch_file json_loads fs path) ∧
  ∀ table, Parser.parse_batch_file json_loads fs path ≠ inr table.
Proof.
  intros Hfs Hline Hbad.
  assert (raises (Parser.parse_batch_file json_loads fs path)) as Hraises.
  { unfold Parser.parse_batch_file, Files.read_text. rewrite Hfs. cbn.
    eapply ParserFacts.parse_lines_abort; [exact Hline|].
    by apply ParserFacts.parse_line_bad. }
  split; [done|]. intros table. by apply ParserFacts.raises_not_inr.
Qed.

Lemma bad_line_aborts_file_witness :
  raises (Parser.parse_batch_file Examples.demo_loads
            Examples.demo_bad_file Examples.demo_out) ∧
  ∀ table,
    Parser.parse_batch_file Examples.demo_loads
      Examples.demo_bad_file Examples.demo_out ≠ inr table.
Proof.
  apply (bad_line_aborts_file Examples.demo_loads Examples.demo_bad_file
           Examples.demo_out ("line-1" +:+ Builder.nl +:+ "line-2") "line-2").
  - reflexivity.
  - vm_compute. right. left.
  - left. eexists. vm_compute. reflexivity.
Defined.

(** C6: after the loop over the completed handles, an empty list of parsed
    tables makes the cell raise ValueError("No completed batch files
    parsed!") and no aggregate is produced; a non-empty list is
    concatenated into the final table.  In particular the cell raises when
    no handle completed or none of the completed ones downloads. *)
Theorem no_tables_is_fatal
    (json_loads : string → option Parser.json) (client : Parser.Client)
    (COMPLETED : gset string) (fs : gmap string string) :
  (∀ all_tables fs',
     Parser.collect_tables json_loads client (elements COMPLETED) [] fs
       = inr (all_tables, fs') →
     (all_tables = [] →
        Parser.retrieve_all json_loads client COMPLETED fs
          = inl (ValueError "No completed batch files parsed!")) ∧
     (all_tables ≠ [] →
        Parser.retrieve_all json_loads client COMPLETED fs
          = inr (Parser.pd_concat all_tables, fs'))) ∧
  ((∀ bid, bid ∈ COMPLETED → Parser.batch_status client bid ≠ "completed") →
     Parser.retrieve_all json_loads client COMPLETED fs
       = inl (ValueError "No completed batch files parsed!")).
Proof.
  split.
  - intros all_tables fs' Hloop. unfold Parser.retrieve_all. rewrite Hloop. cbn.
    split; [by intros ->|]. by destruct all_tables.
  - intros Hnone. unfold Parser.retrieve_all.
    rewrite ParserFacts.collect_tables_none; [done|].
    intros bid Hbid. apply Hnone. by apply elem_of_elements.
Qed.

Lemma no_tables_is_fatal_witness :
  Parser.retrieve_all Examples.demo_loads Examples.demo_client ∅ ∅
    = inl (ValueError "No completed batch files parsed!") ∧
  ∃ table fs',
    Parser.retrieve_all Examples.demo_loads Examples.demo_client
      {[ "batch_a" ]} ∅ = inr (table, fs') ∧
    length table = 1.
Proof.
  split.
  - apply (no_tables_is_fatal Examples.demo_loads Examples.demo_client ∅ ∅).
    intros bid Hbid. by apply not_elem_of_empty in Hbid.
  - destruct (Parser.collect_tables Examples.demo_loads Examples.demo_client
                (elements ({[ "batch_a" ]} : gset string)) [] ∅)
      as [e|[all_tables fs']] eqn:Hloop; [by vm_compute in Hloop|].
    destruct (no_tables_is_fatal Examples.demo_loads Examples.demo_client
                {[ "batch_a" ]} ∅) as [Hcell _].
    destruct (Hcell all_tables fs' Hloop) as [_ Hsome].
    exists (Parser.pd_concat all_tables), fs'.
    vm_compute in Hloop. injection Hloop as <- <-.
    split; [by apply Hsome|reflexivity].
Defined.

(** C7: when the loop has returned, a handle in FAILED is not in COMPLETED,
    so the download-and-parse cell never visits it and its result does not
    depend on anything the service holds for that handle; and the handle is
    not dropped: its "failed" answer is in the log and the last progress
    line printed reports the size of FAILED, which counts it. *)
Theorem failed_handle_excluded_and_counted
    (batch_ids : list string) (api : nat → string → string)
    (fuel : nat) (s' : Poller.state) (bid : string) :
  Poller.poll_loop fuel api 0 (Poller.init batch_ids) = Some s' →
  bid ∈ Poller.FAILED s' →
  (bid ∉ Poller.COMPLETED s') ∧
  (bid ∉ elements (Poller.COMPLETED s')) ∧
  (∀ json_loads client1 client2 fs,
     (∀ b, b ≠ bid →
        Parser.batch_status client1 b = Parser.batch_status client2 b ∧
        Parser.output_text client1 b = Parser.output_text client2 b) →
     Parser.retrieve_all json_loads client1 (Poller.COMPLETED s') fs =
     Parser.retrieve_all json_loads client2 (Poller.COMPLETED s') fs) ∧
  Poller.Retrieve bid "failed" ∈ Poller.log s' ∧
  1 ≤ size (Poller.FAILED s') ∧
  last (Poller.log s') =
    Some (Poller.Print (size (Poller.COMPLETED s')) (size (Poller.FAILED s')) 0).
Proof.
  intros Hloop Hfailed.
  pose proof Hloop as Hrun. rewrite PollerFacts.poll_loop_run in Hrun.
  case_decide as Hp; [|done]. injection Hrun as Hrun.
  pose proof (PollerFacts.partition_run batch_ids fuel api) as Hpart.
  rewrite Hrun in Hpart.
  assert (bid ∉ Poller.COMPLETED s') as Hnc.
  { intros Hc. by apply (Poller.completed_not_failed _ _ Hpart bid). }
  split_and!.
  - done.
  - by rewrite elem_of_elements.
  - intros json_loads client1 client2 fs Hsame. unfold Parser.retrieve_all.
    rewrite (ParserFacts.collect_tables_ext json_loads client1 client2); [done|].
    intros b Hb. apply Hsame. intros ->. by apply elem_of_elements in Hb.
  - rewrite <- Hrun in Hfailed |- *.
    by apply (PollerFacts.moved_after_query batch_ids api fuel bid).
  - destruct (decide (size (Poller.FAILED s') = 0)) as [Hzero|]; [|lia].
    apply size_empty_inv in Hzero. set_solver.
  - apply PollerFacts.poll_loop_result in Hloop as [Hempty [->|(st & s1 & ->)]].
    + by apply not_elem_of_empty in Hfailed.
    + by apply PollerFacts.sweep_last_line.
Qed.

Lemma failed_handle_excluded_and_counted_witness :
  ∃ s',
    Poller.poll_loop 2 Examples.demo_api 0 (Poller.init Examples.demo_ids)
      = Some s' ∧
    ("batch_b" ∉ elements (Poller.COMPLETED s')) ∧
    last (Poller.log s') = Some (Poller.Print 1 1 0).
Proof.
  exists (Poller.run 2 Examples.demo_api 0 (Poller.init Examples.demo_ids)).
  assert (Poller.poll_loop 2 Examples.demo_api 0
            (Poller.init Examples.demo_ids) =
          Some (Poller.run 2 Examples.demo_api 0
                  (Poller.init Examples.demo_ids))) as Hrun
    by (vm_compute; reflexivity).
  destruct (failed_handle_excluded_and_counted Examples.demo_ids
              Examples.demo_api 2 _ "batch_b" Hrun)
    as (_ & Hnot & _ & _ & _ & Hlast).
  - vm_compute. reflexivity.
  - split_and!; [exact Hrun | exact Hnot | exact Hlast].
Defined.

(** ** Startup *)

Module StartupFacts.
Import Startup.

(** Nothing in either place: the cell raises, and no client is built. *)
Lemma startup_missing_key environ fs :
  environ !! OPENAI_API_KEY = None → fs !! key_file = None →
  startup environ fs =
  inl (ValueError "Put your API key in .env or key/openai_key.txt").
Proof.
  intros He Hf. unfold startup, key_fallback. by rewrite He, Hf, He.
Qed.

(** A non-empty variable is used as it is. *)
Lemma startup_env_key environ fs key :
  environ !! OPENAI_API_KEY = Some key → key ≠ EmptyString →
  startup environ fs = inr (environ, mkOpenAI key).
Proof.
  intros He Hk. unfold startup, key_fallback. rewrite He, He.
  by destruct key.
Qed.

(** With the variable unset, a non-blank key file is used. *)
Lemma startup_file_key environ fs text :
  environ !! OPENAI_API_KEY = None → fs !! key_file = Some text →
  PyStr.strip text ≠ EmptyString →
  startup environ fs =
  inr (<[OPENAI_API_KEY := PyStr.strip text]> environ,
       mkOpenAI (PyStr.strip text)).
Proof.
  intros He Hf Hk. unfold startup, key_fallback.
  rewrite He, Hf, lookup_insert_eq. by destruct (PyStr.strip text).
Qed.

(** Either way of providing the key, as the cell reads them, lets the
    cell through. *)
Lemma startup_provided environ fs :
  env_provides environ ∨
  (environ !! OPENAI_API_KEY = None ∧ file_provides fs) →
  ∃ r, startup environ fs = inr r.
Proof.
  intros [(key & He & Hk)|[He (text & Hf & Hk)]].
  - rewrite (startup_env_key _ _ key); eauto.
  - rewrite (startup_file_key _ _ text); eauto.
Qed.

End StartupFacts.

(** C5 does not hold of the cell: with the variable set to the empty
    string the key file is not read, and the cell raises although the
    file provides a key.  (With the variable unset or non-empty the cell
    does what C5 says, see [StartupFacts].) *)
Theorem empty_variable_hides_key_file :
  let environ : gmap string string := {[ Startup.OPENAI_API_KEY := EmptyString ]} in
  let fs : gmap string string := {[ Startup.key_file := "sk-test" ]} in
  Startup.file_provides fs ∧
  Startup.startup environ fs =
  inl (ValueError "Put your API key in .env or key/openai_key.txt").
Proof.
  cbv zeta. split; [|by vm_compute].
  exists "sk-test". split; [by vm_compute|]. by vm_compute.
Qed.

(** * Further properties of the cells *)

(** ** More on identifiers *)

Module IdentifierMore.
Import PyStr PyStrFacts Builder Decompose IdentifierFacts.

(** The scan copies a run of characters none of which can start an
    occurrence. *)
Lemma replace_from_keep c0 old new a b :
  all_chars (differs c0) a = true →
  replace_from (String c0 old) new 0 (a +:+ b) =
  a +:+ replace_from (String c0 old) new 0 b.
Proof.
  induction a as [|c a IH]; [done|].
  cbn [all_chars]. rewrite andb_true_iff. intros [Hc Ha].
  change (String c a +:+ b) with (String c (a +:+ b)).
  cbn [replace_from]. rewrite (prefix_head_differs _ _ _ _ Hc), (IH Ha). done.
Qed.

Lemma length_app s t :
  String.length (s +:+ t) = String.length s + String.length t.
Proof.
  induction s as [|c s IH]; [done|].
  change (String c s +:+ t) with (String c (s +:+ t)).
  cbn [String.length]. by rewrite IH.
Qed.

Lemma prefix_split old s :
  String.prefix old s = true → ∃ rest, s = old +:+ rest.
Proof.
  revert s. induction old as [|c old IH]; intros s; [by exists s|].
  destruct s as [|c' s]; [done|]. cbn [String.prefix].
  destruct (ascii_dec c c') as [->|]; [|done].
  intros H. destruct (IH _ H) as [rest ->]. by exists rest.
Qed.

(** Deleting occurrences keeps what holds of every character. *)
Lemma all_chars_replace_from p old k s :
  all_chars p s = true → all_chars p (replace_from old EmptyString k s) = true.
Proof.
  revert k. induction s as [|c s IH]; intros k; [done|].
  cbn [all_chars]. rewrite andb_true_iff. intros [Hc Hs].
  cbn [replace_from]. destruct k as [|k]; [|by apply IH].
  destruct (String.prefix old (String c s)).
  - change (EmptyString +:+ ?x) with x. by apply IH.
  - cbn [all_chars]. rewrite Hc. by apply IH.
Qed.

(** ... and deletes nothing but characters of the deleted word. *)
Lemma all_chars_replace_from_inv p c0 old s :
  all_chars p (String c0 old) = true →
  all_chars p (replace_from (String c0 old) EmptyString 0 s) = true →
  all_chars p s = true.
Proof.
  intros Hold. revert s.
  assert (∀ n s, String.length s < n →
            all_chars p (replace_from (String c0 old) EmptyString 0 s) = true →
            all_chars p s = true) as Hn.
  { induction n as [|n IH]; intros s Hlen; [lia|].
    destruct s as [|c s]; [done|].
    destruct (String.prefix (String c0 old) (String c s)) eqn:Hp.
    - apply prefix_split in Hp as [rest Hrest]. rewrite Hrest.
      rewrite replace_from_here. change (EmptyString +:+ ?x) with x.
      intros Hr. rewrite all_chars_app, Hold. apply IH; [|done].
      assert (String.length (String c s) =
              String.length (String c0 old) + String.length rest) as Hl
        by (rewrite Hrest; apply length_app).
      cbn [String.length] in *. lia.
    - cbn [replace_from]. rewrite Hp. cbn [all_chars].
      rewrite !andb_true_iff. intros [Hc Hr]. split; [done|].
      apply IH; [|done]. cbn [String.length] in Hlen. lia. }
  intros s. apply (Hn (S (String.length s))). lia.
Qed.

Lemma split_from_cons sep k s : ∃ p ps, split_from sep k s = p :: ps.
Proof.
  revert k. induction s as [|c s IH]; intros k; [by eexists _, _|].
  cbn [split_from]. destruct k as [|k]; [|apply IH].
  destruct (String.prefix sep (String c s)); [by eexists _, _|].
  destruct (IH 0) as (p & ps & ->). by eexists _, _.
Qed.

(** With a separator in it, a string splits into two parts at least. *)
Lemma split_from_two c0 s :
  contains (String c0 EmptyString) s = true →
  ∃ p q rest, split_from (String c0 EmptyString) 0 s = p :: q :: rest.
Proof.
  induction s as [|c s IH]; [done|].
  cbn [contains split_from]. destruct (String.prefix _ (String c s)).
  - intros _. cbn [String.length Nat.sub].
    destruct (split_from_cons (String c0 EmptyString) 0 s) as (q & rest & ->).
    by eexists _, _, _.
  - cbn [orb]. intros Hs. destruct (IH Hs) as (p & q & rest & ->).
    by eexists _, _, _.
Qed.

(** No part of a split holds the separator. *)
Lemma split_from_parts c0 s :
  Forall (λ p, all_chars (differs c0) p = true)
         (split_from (String c0 EmptyString) 0 s).
Proof.
  induction s as [|c s IH]; [by repeat constructor|].
  cbn [split_from]. destruct (String.prefix _ (String c s)) eqn:Hp.
  - cbn [String.length Nat.sub]. by constructor.
  - assert (differs c0 c = true) as Hc.
    { unfold differs. apply negb_true_iff, Ascii.eqb_neq. intros ->.
      cbn [String.prefix] in Hp. destruct (ascii_dec c0 c0); [|done].
      by destruct s. }
    destruct (split_from _ 0 s) as [|p ps].
    + repeat constructor. cbn [all_chars]. by rewrite Hc.
    + apply Forall_cons in IH as [Hhd Htl]. constructor; [|done].
      cbn [all_chars]. by rewrite Hc, Hhd.
Qed.

(** What [replace] and [split] make of an identifier, whatever the
    variant is. *)
Lemma split_replace_compose_id k l :
  split "_" (replace "claim" "" (compose_id k l)) =
  inr (str_of_int k :: split_from "_" 0 (replace "claim" "" l)).
Proof.
  rewrite compose_id_unfold. unfold replace at 1, split.
  rewrite replace_from_here. change (EmptyString +:+ ?x) with x.
  rewrite replace_from_keep by apply str_of_int_no_c.
  assert (replace_from "claim" "" 0 (String "_" l) =
          String "_" (replace_from "claim" "" 0 l)) as -> by done.
  by rewrite split_from_first by apply str_of_int_no_sep.
Qed.

End IdentifierMore.

(** X1: the identifier of a record determines the row key and the variant:
    two records with the same identifier were built from the same claim_id
    and the same language, whatever characters the language contains. *)
Theorem identifier_determines_key_and_variant
    (row1 row2 : Builder.Row) (lang1 lang2 : string) :
  Builder.custom_id (Builder.make_jsonl_line row1 lang1) =
  Builder.custom_id (Builder.make_jsonl_line row2 lang2) →
  Builder.claim_id row1 = Builder.claim_id row2 ∧ lang1 = lang2.
Proof. apply IdentifierFacts.compose_id_inj. Qed.

Lemma identifier_determines_key_and_variant_witness :
  Builder.claim_id (Builder.mkRow 7 "a" "b" "c") =
  Builder.claim_id (Builder.mkRow 7 "d" "e" "f") ∧ "pt_BR" = "pt_BR".
Proof.
  apply (identifier_determines_key_and_variant
           (Builder.mkRow 7 "a" "b" "c") (Builder.mkRow 7 "d" "e" "f")
           "pt_BR" "pt_BR").
  reflexivity.
Defined.

(** X2: the identifier of a record whose variant contains the separator
    "_" is rejected by the decomposition of [parse_batch_file]: the split
    gives more than two parts and the unpacking raises ValueError. *)
Theorem separator_in_variant_rejected (row : Builder.Row) (target_lang : string) :
  PyStr.contains "_" target_lang = true →
  Decompose.decompose_id (Builder.custom_id (Builder.make_jsonl_line row target_lang))
    = inl (ValueError "too many values to unpack").
Proof.
  intros Hsep. cbn [Builder.make_jsonl_line Builder.custom_id].
  unfold Decompose.decompose_id.
  rewrite IdentifierMore.split_replace_compose_id.
  assert (PyStr.contains "_" (PyStr.replace "claim" "" target_lang) = true) as Hkept.
  { destruct (PyStr.contains "_" (PyStr.replace "claim" "" target_lang)) eqn:Hc; [done|].
    apply PyStrFacts.contains_single_chars in Hc.
    apply (IdentifierMore.all_chars_replace_from_inv _ "c" "laim") in Hc; [|done].
    apply PyStrFacts.contains_single_chars in Hc. congruence. }
  destruct (IdentifierMore.split_from_two _ _ Hkept) as (p & q & rest & Hparts).
  unfold PyStr.replace in Hparts. unfold PyStr.replace. by rewrite Hparts.
Qed.

Lemma separator_in_variant_rejected_witness :
  Decompose.decompose_id
    (Builder.custom_id (Builder.make_jsonl_line (Builder.mkRow 1 "a" "b" "c") "zh_CN"))
    = inl (ValueError "too many values to unpack").
Proof.
  apply (separator_in_variant_rejected (Builder.mkRow 1 "a" "b" "c") "zh_CN").
  reflexivity.
Defined.

(** X3: for a variant without the separator the decomposition returns
    the row key and the variant with every occurrence of "claim" removed
    from it. *)
Theorem decompose_returns_key_and_stripped_variant
    (row : Builder.Row) (target_lang : string) :
  PyStr.contains "_" target_lang = false →
  Decompose.decompose_id (Builder.custom_id (Builder.make_jsonl_line row target_lang))
    = inr (Builder.claim_id row, PyStr.replace "claim" "" target_lang).
Proof.
  intros Hsep. cbn [Builder.make_jsonl_line Builder.custom_id].
  unfold Decompose.decompose_id.
  rewrite IdentifierMore.split_replace_compose_id.
  apply PyStrFacts.contains_single_chars in Hsep.
  assert (PyStr.contains "_" (PyStr.replace "claim" "" target_lang) = false) as Hnone.
  { apply PyStrFacts.contains_single_chars.
    by apply IdentifierMore.all_chars_replace_from. }
  rewrite (PyStrFacts.split_from_absent _ _ Hnone). cbn.
  by rewrite PyStrFacts.int_of_str_of_int.
Qed.

Lemma decompose_returns_key_and_stripped_variant_witness :
  Decompose.decompose_id
    (Builder.custom_id
       (Builder.make_jsonl_line (Builder.mkRow 4 "a" "b" "c") "Proclaimed"))
    = inr (4%Z, "Proed").
Proof.
  apply (decompose_returns_key_and_stripped_variant
           (Builder.mkRow 4 "a" "b" "c") "Proclaimed").
  reflexivity.
Defined.

(** X4: whatever identifier the decomposition accepts, the language it
    returns contains no separator. *)
Theorem decomposed_language_has_no_separator (cid : string) (n : Z) (lang : string) :
  Decompose.decompose_id cid = inr (n, lang) →
  PyStr.contains "_" lang = false.
Proof.
  unfold Decompose.decompose_id, PyStr.split.
  pose proof (IdentifierMore.split_from_parts "_" (PyStr.replace "claim" "" cid))
    as Hparts.
  destruct (PyStr.split_from "_" 0 (PyStr.replace "claim" "" cid))
    as [|a [|b [|c parts]]]; cbn; try done.
  destruct (PyStr.int_of_str a); [done|]. cbn. intros [= _ <-].
  apply PyStrFacts.contains_single_chars.
  apply Forall_cons in Hparts as [_ Hparts]. by apply Forall_cons in Hparts as [? _].
Qed.

Lemma decomposed_language_has_no_separator_witness :
  PyStr.contains "_" "German" = false.
Proof.
  apply (decomposed_language_has_no_separator "claim12_German" 12 "German").
  reflexivity.
Defined.

(** ** Lines of text *)

Module FilesFacts.
Import PyStr Files Lines.

Lemma app_assoc_s (s t u : string) : (s +:+ t) +:+ u = s +:+ (t +:+ u).
Proof.
  induction s as [|c s IH]; [done|].
  change (String c (s +:+ t) +:+ u = String c (s +:+ (t +:+ u))).
  change (String c ((s +:+ t) +:+ u) = String c (s +:+ (t +:+ u))).
  by rewrite IH.
Qed.

(** A line followed by a line feed is read as that line, and reading goes
    on behind the line feed. *)
Lemma splitlines_from_line l rest :
  all_chars no_break l = true →
  splitlines_from false (l +:+ Builder.nl +:+ rest) =
  l :: splitlines_from false rest.
Proof.
  induction l as [|c l IH]; [done|].
  cbn [all_chars]. rewrite andb_true_iff. intros [Hc Hl].
  change (String c l +:+ Builder.nl +:+ rest)
    with (String c (l +:+ Builder.nl +:+ rest)).
  cbn [splitlines_from]. unfold no_break in Hc. apply negb_true_iff in Hc.
  by rewrite Hc, (IH Hl).
Qed.

(** A non-empty line without a boundary in it is read as itself. *)
Lemma splitlines_from_single b l :
  all_chars no_break l = true → l ≠ EmptyString →
  splitlines_from b l = [l].
Proof.
  revert b. induction l as [|c l IH]; [done|]. intros b Hcl _.
  cbn [all_chars] in Hcl. apply andb_true_iff in Hcl as [Hc Hl].
  cbn [splitlines_from]. unfold no_break in Hc. apply negb_true_iff in Hc.
  rewrite Hc. destruct l as [|c' l]; [done|]. by rewrite IH.
Qed.

(** The lines [splitlines] returns have no boundary in them. *)
Lemma splitlines_from_no_break b s :
  Forall (λ l, all_chars no_break l = true) (splitlines_from b s).
Proof.
  revert b. induction s as [|c s IH]; intros b; [constructor|].
  cbn [splitlines_from]. destruct (is_linebreak c) eqn:Hc.
  - destruct (is_lf c && b); [apply IH|]. constructor; [done|apply IH].
  - specialize (IH false). destruct (splitlines_from false s) as [|l ls].
    + repeat constructor. cbn [all_chars]. unfold no_break at 1. by rewrite Hc.
    + apply Forall_cons in IH as [Hl Hls]. constructor; [|done].
      cbn [all_chars]. unfold no_break at 1. by rewrite Hc, Hl.
Qed.

(** Joining lines with line feeds and reading them back: nothing is lost
    when no line is empty. *)
Lemma splitlines_join ls :
  Forall (λ l, all_chars no_break l = true) ls →
  Forall (λ l, l ≠ EmptyString) ls →
  splitlines (join Builder.nl ls) = ls.
Proof.
  unfold splitlines, join.
  induction ls as [|l ls IH]; [done|]. intros Hb Hn.
  apply Forall_cons in Hb as [Hl Hb]. apply Forall_cons in Hn as [Hne Hn].
  destruct ls as [|l' ls].
  - by apply splitlines_from_single.
  - change (String.concat Builder.nl (l :: l' :: ls))
      with (l +:+ Builder.nl +:+ String.concat Builder.nl (l' :: ls)).
    rewrite splitlines_from_line by done. f_equal. by apply IH.
Qed.

End FilesFacts.

(** ** The build cell *)

Module CellsFacts.
Import PyStr Files Lines Builder Cells FilesFacts.

Lemma foldl_write_lines json_dumps acc records :
  foldl (λ text rec, text +:+ json_dumps rec +:+ nl) acc records =
  acc +:+ write_lines json_dumps records.
Proof.
  unfold write_lines. revert acc.
  induction records as [|rec records IH]; intros acc.
  - cbn [foldl]. clear. induction acc as [|c acc IH]; [done|].
    change (String c acc = String c (acc +:+ EmptyString)). by rewrite <- IH.
  - cbn [foldl]. rewrite IH, (IH (EmptyString +:+ _)).
    change (EmptyString +:+ ?x) with x. by rewrite !app_assoc_s.
Qed.

Lemma write_lines_cons json_dumps rec records :
  write_lines json_dumps (rec :: records) =
  json_dumps rec +:+ nl +:+ write_lines json_dumps records.
Proof.
  unfold write_lines at 1. cbn [foldl]. rewrite foldl_write_lines.
  change (EmptyString +:+ ?x) with x. by rewrite app_assoc_s.
Qed.

Lemma splitlines_write_lines json_dumps records :
  (∀ rec, all_chars no_break (json_dumps rec) = true) →
  splitlines (write_lines json_dumps records) = map json_dumps records.
Proof.
  intros Hdumps. unfold splitlines.
  induction records as [|rec records IH]; [done|].
  rewrite write_lines_cons, splitlines_from_line by done.
  cbn [map]. by rewrite IH.
Qed.

Lemma build_jsonl_lookup rows langs i j row lang :
  rows !! i = Some row → langs !! j = Some lang →
  build_jsonl rows langs !! (i * length langs + j) = Some (make_jsonl_line row lang).
Proof.
  revert i. induction rows as [|r rows IH]; intros i Hrow Hlang; [done|].
  rewrite BuilderFacts.build_jsonl_cons.
  pose proof (lookup_lt_Some _ _ _ Hlang) as Hj.
  destruct i as [|i].
  - injection Hrow as ->. rewrite lookup_app_l by (rewrite length_map; lia).
    cbn [Nat.mul Nat.add]. by apply list_lookup_fmap_Some_2.
  - rewrite lookup_app_r by (rewrite length_map; lia).
    rewrite length_map.
    replace (S i * length langs + j - length langs) with (i * length langs + j) by lia.
    by apply IH.
Qed.

End CellsFacts.

(** X5: the build loop writes the records row by row: the record at
    position i * len(TARGET_LANGS) + j is the one of row i and language j. *)
Theorem build_is_row_major
    (rows : list Builder.Row) (langs : list string) (i j : nat)
    (row : Builder.Row) (lang : string) :
  rows !! i = Some row → langs !! j = Some lang →
  Builder.build_jsonl rows langs !! (i * length langs + j)
    = Some (Builder.make_jsonl_line row lang).
Proof. apply CellsFacts.build_jsonl_lookup. Qed.

Lemma build_is_row_major_witness :
  Builder.build_jsonl Builder.df_claims Builder.TARGET_LANGS
    !! (1 * length Builder.TARGET_LANGS + 2)
  = Some (Builder.make_jsonl_line
            (Builder.mkRow 2 "DHA intake contributes to the normal function of the brain."
               "Docosahexaenoic acid (DHA)" "Brain function")
            "Japanese").
Proof.
  apply (build_is_row_major Builder.df_claims Builder.TARGET_LANGS 1 2); reflexivity.
Defined.

(** X6: when [json.dumps] puts no line boundary into a line (it escapes
    them), the file the build cell writes reads back, with [splitlines], as
    the serialised records in order: one line per (row, language), rows
    times languages lines in all. *)
Theorem built_file_reads_back
    (json_dumps : Builder.RequestRecord → string)
    (rows : list Builder.Row) (langs : list string) (fs : gmap string string) :
  (∀ rec, PyStr.all_chars Lines.no_break (json_dumps rec) = true) →
  ∃ text,
    Cells.build_cell json_dumps rows langs fs !! Chunker.jsonl_path = Some text ∧
    Files.splitlines text = map json_dumps (Builder.build_jsonl rows langs) ∧
    length (Files.splitlines text) = length rows * length langs.
Proof.
  intros Hdumps. eexists. split_and!.
  - unfold Cells.build_cell, Files.write_text. apply lookup_insert_eq.
  - by apply CellsFacts.splitlines_write_lines.
  - rewrite CellsFacts.splitlines_write_lines by done.
    by rewrite length_map, BuilderFacts.build_jsonl_length.
Qed.

Lemma built_file_reads_back_witness :
  ∃ text,
    Cells.build_cell (λ _, "{}") Builder.df_claims Builder.TARGET_LANGS ∅
      !! Chunker.jsonl_path = Some text ∧
    length (Files.splitlines text) = 9.
Proof.
  destruct (built_file_reads_back (λ _, "{}") Builder.df_claims
              Builder.TARGET_LANGS ∅) as (text & Hfile & _ & Hlen).
  - intros rec. reflexivity.
  - exists text. split; [exact Hfile | exact Hlen].
Defined.

(** ** More on the chunker and the upload *)

Module ChunkerMore.
Import PyStr PyStrFacts Files Lines Chunker ChunkerFacts FilesFacts Cells.

Lemma part_path_not_input i : part_path i ≠ jsonl_path.
Proof.
  unfold part_path, part_dir, jsonl_path. intros H.
  apply (String.app_inj "int_data/batch_"
           ("parts_demo" +:+ "/claims_part" +:+
              str_of_int (Z.of_nat (i + 1)) +:+ ".jsonl")
           "input_claims_demo.jsonl") in H.
  done.
Qed.

(** What is in the part files after the else branch has run, as lists. *)
Lemma written_parts lines c fs n :
  let r := foldl (write_part lines c) ([], fs) (seq 0 n) in
  Forall2 (λ p content, r.2 !! p = Some content)
          r.1 (map (λ i, join Builder.nl (chunk_slice lines c i)) (seq 0 n)).
Proof.
  cbv zeta. destruct (write_parts_spec lines c fs n) as (Hpaths & Hwritten & _).
  rewrite Hpaths. apply Forall2_fmap, Forall_Forall2_diag, Forall_forall.
  intros i Hi. apply elem_of_seq in Hi. apply Hwritten. lia.
Qed.

Lemma chunk_slice_reads_back lines c i :
  Forall (λ l, l ≠ EmptyString) lines →
  Forall (λ l, all_chars no_break l = true) lines →
  splitlines (join Builder.nl (chunk_slice lines c i)) = chunk_slice lines c i.
Proof.
  intros Hne Hnb. unfold chunk_slice, slice.
  apply splitlines_join; by apply Forall_take, Forall_drop.
Qed.

(** Every part, read back line by line, and all parts in order: the lines
    of the input. *)
Lemma parts_read_back NUM_PARTS fs text :
  1 ≤ NUM_PARTS →
  fs !! jsonl_path = Some text →
  Forall (λ l, l ≠ EmptyString) (splitlines text) →
  ∃ part_paths fs' contents,
    split_parts NUM_PARTS fs = inr (part_paths, fs') ∧
    length part_paths = NUM_PARTS ∧
    Forall2 (λ p content, fs' !! p = Some content) part_paths contents ∧
    concat (map splitlines contents) = splitlines text.
Proof.
  intros HN Hfs Hne.
  destruct (decide (NUM_PARTS = 1)) as [->|Hmany].
  - exists [jsonl_path], fs, [text]. split_and!; [done|done| |].
    + by repeat constructor.
    + cbn. apply app_nil_r.
  - set (lines := splitlines text) in *.
    set (c := chunk_size NUM_PARTS lines).
    pose proof (written_parts lines c fs NUM_PARTS) as Hparts. cbv zeta in Hparts.
    pose proof (write_parts_spec lines c fs NUM_PARTS) as (Hpaths & _ & _).
    destruct (foldl _ _ _) as [part_paths fs'] eqn:Hfold. cbn [fst snd] in *.
    eexists part_paths, fs', _. split_and!.
    + rewrite (split_parts_many _ _ text) by (done || lia).
      fold lines c. by rewrite Hfold.
    + by rewrite Hpaths, length_map, length_seq.
    + exact Hparts.
    + rewrite map_map.
      rewrite (map_ext_in _ (chunk_slice lines c)).
      * pose proof (part_lines_concat NUM_PARTS lines HN) as Hcat.
        unfold part_lines in Hcat.
        by destruct (Nat.eqb_spec NUM_PARTS 1).
      * intros i _. apply chunk_slice_reads_back; [done|].
        apply splitlines_from_no_break.
Qed.

(** The cell leaves the input file and every file that is not a part as
    they were. *)
Lemma split_parts_frame NUM_PARTS fs part_paths fs' :
  split_parts NUM_PARTS fs = inr (part_paths, fs') →
  length part_paths = NUM_PARTS ∧
  fs' !! jsonl_path = fs !! jsonl_path ∧
  (∀ p, p ∉ part_paths → fs' !! p = fs !! p) ∧
  (NUM_PARTS ≠ 1 → part_paths = map part_path (seq 0 NUM_PARTS)).
Proof.
  unfold split_parts, read_text.
  destruct (Nat.eqb_spec NUM_PARTS 1) as [->|Hmany].
  { intros [= <- <-]. done. }
  destruct (fs !! jsonl_path) as [text|] eqn:Hfs; [|done]. cbn.
  destruct (Nat.eqb_spec NUM_PARTS 0) as [->|Hpos]; [done|].
  pose proof (write_parts_spec (splitlines text)
                (chunk_size NUM_PARTS (splitlines text)) fs NUM_PARTS)
    as (Hpaths & _ & Hother).
  intros [= Hrun]. rewrite Hrun in Hpaths, Hother. cbn [fst snd] in *.
  assert (∀ p, p ∉ part_paths → fs' !! p = fs !! p) as Hframe.
  { intros p Hp. apply Hother. intros i Hi ->. apply Hp. rewrite Hpaths.
    apply (list_elem_of_fmap_2 part_path). apply elem_of_seq. lia. }
  split_and!; [by rewrite Hpaths, length_map, length_seq| |done|done].
  rewrite <- Hfs. apply Hframe. rewrite Hpaths.
  intros Hin. apply list_elem_of_fmap in Hin as (i & Heq & _).
  by apply (part_path_not_input i).
Qed.

(** [take 1 (drop i l)] is the element at [i], if there is one. *)
Lemma take_one_drop {A : Type} (l : list A) i :
  take 1 (drop i l) = match l !! i with Some x => [x] | None => [] end.
Proof.
  revert i. induction l as [|x l IH]; intros [|i]; try done.
  apply IH.
Qed.

Lemma uploaded_app calls1 calls2 :
  uploaded (calls1 ++ calls2) = uploaded calls1 ++ uploaded calls2.
Proof.
  induction calls1 as [|[p c|f|n] calls1 IH]; [done|..]; cbn [app uploaded];
    by rewrite IH.
Qed.

(** The upload loop over parts that all exist. *)
Lemma submit_from_spec svc fs part_paths contents k batch_ids calls :
  Forall2 (λ p content, fs !! p = Some content) part_paths contents →
  ∃ new_ids new_calls,
    submit_from svc fs k part_paths batch_ids calls
      = inr (batch_ids ++ new_ids, calls ++ new_calls) ∧
    new_ids = imap (λ i content, batch_id svc (k + i) (file_id svc (k + i) content))
                contents ∧
    uploaded new_calls = contents ∧
    length new_calls = 3 * length part_paths.
Proof.
  intros Hall. revert k batch_ids calls.
  induction Hall as [|p content part_paths contents Hp _ IH]; intros k batch_ids calls.
  - exists [], []. by rewrite !app_nil_r.
  - cbn [submit_from]. unfold read_text. rewrite Hp. cbn.
    destruct (IH (S k) (batch_ids ++ [batch_id svc k (file_id svc k content)])
                (calls ++ [FileCreate p content;
                           BatchCreate (file_id svc k content); Pause 1]))
      as (new_ids & new_calls & Hrun & Hids & Hup & Hlen).
    eexists (_ :: new_ids), (_ :: _ :: _ :: new_calls). split_and!.
    + rewrite Hrun. by rewrite <- !app_assoc.
    + rewrite Hids. cbn [imap]. rewrite Nat.add_0_r. f_equal.
      apply imap_ext. intros i c _. cbn. by replace (k + S i) with (S k + i) by lia.
    + cbn [uploaded]. by rewrite Hup.
    + cbn [length]. lia.
Qed.

End ChunkerMore.

(** X7: for NUM_PARTS >= 1 and an input file without empty lines, the part
    files exist after the cell has run, and reading them back line by line,
    one part after the other, gives the lines of the input file: the split
    loses and repeats nothing on disk. *)
Theorem part_files_read_back
    (NUM_PARTS : nat) (fs : gmap string string) (text : string) :
  1 ≤ NUM_PARTS →
  fs !! Chunker.jsonl_path = Some text →
  Forall (λ l, l ≠ EmptyString) (Files.splitlines text) →
  ∃ part_paths fs' contents,
    Chunker.split_parts NUM_PARTS fs = inr (part_paths, fs') ∧
    length part_paths = NUM_PARTS ∧
    Forall2 (λ p content, fs' !! p = Some content) part_paths contents ∧
    concat (map Files.splitlines contents) = Files.splitlines text.
Proof. apply ChunkerMore.parts_read_back. Qed.

Lemma part_files_read_back_witness :
  ∃ part_paths fs' contents,
    Chunker.split_parts 3 Examples.eight_files = inr (part_paths, fs') ∧
    length part_paths = 3 ∧
    Forall2 (λ p content, fs' !! p = Some content) part_paths contents ∧
    concat (map Files.splitlines contents) = Examples.eight_lines.
Proof.
  apply (part_files_read_back 3 Examples.eight_files
           (PyStr.join Builder.nl Examples.eight_lines)).
  - lia.
  - reflexivity.
  - vm_compute. repeat constructor; discriminate.
Defined.

(** X8: whenever the cell returns, it returns NUM_PARTS paths, the input
    file holds what it held before, and so does every file that is not one
    of the returned parts. *)
Theorem split_parts_touches_only_parts
    (NUM_PARTS : nat) (fs : gmap string string)
    (part_paths : list string) (fs' : gmap string string) :
  Chunker.split_parts NUM_PARTS fs = inr (part_paths, fs') →
  length part_paths = NUM_PARTS ∧
  fs' !! Chunker.jsonl_path = fs !! Chunker.jsonl_path ∧
  (∀ p, p ∉ part_paths → fs' !! p = fs !! p).
Proof.
  intros Hrun.
  destruct (ChunkerMore.split_parts_frame _ _ _ _ Hrun) as (? & ? & ? & _). done.
Qed.

Lemma split_parts_touches_only_parts_witness :
  ∃ part_paths fs',
    Chunker.split_parts 4 Examples.eight_files = inr (part_paths, fs') ∧
    fs' !! Chunker.jsonl_path = Examples.eight_files !! Chunker.jsonl_path.
Proof.
  destruct (Chunker.split_parts 4 Examples.eight_files)
    as [e|[part_paths fs']] eqn:Hrun; [by vm_compute in Hrun|].
  exists part_paths, fs'. split; [reflexivity|].
  destruct (split_parts_touches_only_parts 4 Examples.eight_files part_paths fs' Hrun)
    as (_ & Hinput & _).
  exact Hinput.
Defined.

(** X9: running the cell again on the files it has left changes nothing:
    it returns the same paths and the same files. *)
Theorem split_parts_idempotent
    (NUM_PARTS : nat) (fs : gmap string string)
    (part_paths : list string) (fs' : gmap string string) :
  Chunker.split_parts NUM_PARTS fs = inr (part_paths, fs') →
  Chunker.split_parts NUM_PARTS fs' = inr (part_paths, fs').
Proof.
  intros Hrun.
  destruct (ChunkerMore.split_parts_frame _ _ _ _ Hrun) as (_ & Hinput & _ & Hpaths).
  destruct (decide (NUM_PARTS = 1)) as [->|Hmany].
  { unfold Chunker.split_parts in *. cbn in *. by injection Hrun as <- <-. }
  specialize (Hpaths Hmany).
  unfold Chunker.split_parts, Files.read_text in Hrun |- *.
  destruct (Nat.eqb_spec NUM_PARTS 1) as [?|_]; [done|].
  rewrite Hinput. destruct (fs !! Chunker.jsonl_path) as [text|]; [|done].
  cbn in Hrun |- *.
  destruct (Nat.eqb_spec NUM_PARTS 0) as [?|_]; [done|]. f_equal.
  injection Hrun as Hrun.
  set (lines := Files.splitlines text) in *.
  set (c := Chunker.chunk_size NUM_PARTS lines) in *.
  pose proof (ChunkerFacts.write_parts_spec lines c fs NUM_PARTS)
    as (_ & Hw1 & _).
  pose proof (ChunkerFacts.write_parts_spec lines c fs' NUM_PARTS)
    as (Hp2 & Hw2 & Ho2).
  rewrite Hrun in Hw1. cbn [snd] in Hw1.
  destruct (foldl _ ([], fs') _) as [paths2 fs2]. cbn [fst snd] in *.
  f_equal; [congruence|].
  apply map_eq. intros p.
  destruct (decide (p ∈ part_paths)) as [Hin|Hout].
  - rewrite Hpaths in Hin. apply list_elem_of_fmap in Hin as (i & -> & Hi).
    apply elem_of_seq in Hi. rewrite Hw1, Hw2 by lia. done.
  - apply Ho2. intros i Hi ->. apply Hout. rewrite Hpaths.
    apply (list_elem_of_fmap_2 Chunker.part_path), elem_of_seq. lia.
Qed.

Lemma split_parts_idempotent_witness :
  ∃ part_paths fs',
    Chunker.split_parts 4 Examples.eight_files = inr (part_paths, fs') ∧
    Chunker.split_parts 4 fs' = inr (part_paths, fs').
Proof.
  destruct (Chunker.split_parts 4 Examples.eight_files)
    as [e|[part_paths fs']] eqn:Hrun; [by vm_compute in Hrun|].
  exists part_paths, fs'. split; [reflexivity|].
  apply (split_parts_idempotent 4 Examples.eight_files part_paths fs' Hrun).
Defined.

(** X10: with more parts than lines (and at least two parts) the chunk
    size is 1: part number i holds line number i alone, and the parts
    beyond the last line are written as empty files. *)
Theorem more_parts_than_lines
    (NUM_PARTS : nat) (fs : gmap string string) (text : string) :
  2 ≤ NUM_PARTS →
  fs !! Chunker.jsonl_path = Some text →
  length (Files.splitlines text) < NUM_PARTS →
  ∃ part_paths fs',
    Chunker.split_parts NUM_PARTS fs = inr (part_paths, fs') ∧
    ∀ i, i < NUM_PARTS →
      part_paths !! i = Some (Chunker.part_path i) ∧
      fs' !! Chunker.part_path i =
        Some (match Files.splitlines text !! i with
              | Some line => line
              | None => EmptyString
              end).
Proof.
  intros HN Hfs Hfew. set (lines := Files.splitlines text) in *.
  pose proof (ChunkerFacts.write_parts_spec lines
                (Chunker.chunk_size NUM_PARTS lines) fs NUM_PARTS)
    as (Hpaths & Hwritten & _).
  destruct (foldl _ _ _) as [part_paths fs'] eqn:Hfold. cbn [fst snd] in *.
  exists part_paths, fs'. split.
  - rewrite (ChunkerFacts.split_parts_many _ _ text) by done.
    fold lines. by rewrite Hfold.
  - intros i Hi. split.
    + rewrite Hpaths. apply list_lookup_fmap_Some. exists i.
      split; [done|]. by apply lookup_seq.
    + rewrite (Hwritten i Hi). f_equal.
      unfold Chunker.chunk_slice, Chunker.chunk_size.
      rewrite Nat.div_small by done. cbn [Nat.add].
      rewrite ChunkerFacts.slice_window, Nat.mul_1_r, ChunkerMore.take_one_drop.
      by destruct (lines !! i).
Qed.

Lemma more_parts_than_lines_witness :
  ∃ part_paths fs',
    Chunker.split_parts 9 Examples.eight_files = inr (part_paths, fs') ∧
    fs' !! Chunker.part_path 7 = Some "r8" ∧
    fs' !! Chunker.part_path 8 = Some EmptyString.
Proof.
  destruct (more_parts_than_lines 9 Examples.eight_files
              (PyStr.join Builder.nl Examples.eight_lines))
    as (part_paths & fs' & Hrun & Hparts).
  - lia.
  - reflexivity.
  - vm_compute. lia.
  - exists part_paths, fs'. split_and!; [exact Hrun| |].
    + apply (Hparts 7). lia.
    + apply (Hparts 8). lia.
Defined.

(** X11: the upload cell makes one file and one batch per part, in the
    order of the parts: when every part exists it returns as many batch ids
    as there are parts, id number k is the service's answer to upload
    number k of part k's content, and the contents uploaded are the
    contents of the parts in order. *)
Theorem submit_one_batch_per_part
    (svc : Cells.Service) (fs : gmap string string)
    (part_paths contents : list string) :
  Forall2 (λ p content, fs !! p = Some content) part_paths contents →
  ∃ batch_ids calls,
    Cells.submit_parts svc fs part_paths = inr (batch_ids, calls) ∧
    length batch_ids = length part_paths ∧
    (∀ k content, contents !! k = Some content →
       batch_ids !! k =
         Some (Cells.batch_id svc k (Cells.file_id svc k content))) ∧
    Cells.uploaded calls = contents.
Proof.
  intros Hall.
  destruct (ChunkerMore.submit_from_spec svc fs part_paths contents 0 [] [] Hall)
    as (ids & calls & Hrun & Hids & Hup & _).
  exists ids, calls. split_and!; [done| | |done].
  - rewrite Hids, length_imap. symmetry. by eapply Forall2_length.
  - intros k content Hk. rewrite Hids, list_lookup_imap, Hk. done.
Qed.

Lemma submit_one_batch_per_part_witness :
  ∃ batch_ids calls,
    Cells.submit_parts (Cells.mkService (λ _ c, c) (λ _ f, f))
      Examples.eight_files [Chunker.jsonl_path] = inr (batch_ids, calls) ∧
    length batch_ids = 1.
Proof.
  destruct (submit_one_batch_per_part (Cells.mkService (λ _ c, c) (λ _ f, f))
              Examples.eight_files [Chunker.jsonl_path]
              [PyStr.join Builder.nl Examples.eight_lines])
    as (batch_ids & calls & Hrun & Hlen & _).
  - repeat constructor.
  - exists batch_ids, calls. split; [exact Hrun | exact Hlen].
Defined.

(** X12: a part that does not exist stops the upload cell: it raises the
    FileNotFoundError of a missing part and returns no batch ids. *)
Theorem submit_missing_part_raises
    (svc : Cells.Service) (fs : gmap string string)
    (part_paths : list string) (p : string) :
  p ∈ part_paths → fs !! p = None →
  ∃ q, q ∈ part_paths ∧ fs !! q = None ∧
       Cells.submit_parts svc fs part_paths = inl (FileNotFoundError q).
Proof.
  unfold Cells.submit_parts. generalize 0 (@nil string) (@nil Cells.call).
  induction part_paths as [|q part_paths IH]; intros k ids calls Hin Hmissing.
  - by apply elem_of_nil in Hin.
  - cbn [Cells.submit_from]. unfold Files.read_text.
    destruct (fs !! q) as [content|] eqn:Hq.
    + apply elem_of_cons in Hin as [->|Hin]; [congruence|].
      edestruct IH as (q' & Hq' & Hnone & Hrun); [exact Hin|exact Hmissing|].
      exists q'. split_and!; [by right|done|exact Hrun].
    + exists q. split_and!; [by left|done|done].
Qed.

Lemma submit_missing_part_raises_witness :
  ∃ q,
    q ∈ [Chunker.jsonl_path; Chunker.part_path 0] ∧
    Examples.eight_files !! q = None ∧
    Cells.submit_parts (Cells.mkService (λ _ c, c) (λ _ f, f))
      Examples.eight_files [Chunker.jsonl_path; Chunker.part_path 0]
    = inl (FileNotFoundError q).
Proof.
  apply (submit_missing_part_raises _ _ _ (Chunker.part_path 0)).
  - right. left.
  - reflexivity.
Defined.

(** X13: build, split, upload: for NUM_PARTS >= 1 and an input file
    without empty lines, the split cell followed by the upload cell
    returns NUM_PARTS batch ids, and the uploaded contents, read line by
    line in upload order, are the lines of the input file: every request
    line is submitted exactly once, in order. *)
Theorem every_line_submitted_once
    (svc : Cells.Service) (NUM_PARTS : nat)
    (fs : gmap string string) (text : string) :
  1 ≤ NUM_PARTS →
  fs !! Chunker.jsonl_path = Some text →
  Forall (λ l, l ≠ EmptyString) (Files.splitlines text) →
  ∃ part_paths fs' batch_ids calls,
    Chunker.split_parts NUM_PARTS fs = inr (part_paths, fs') ∧
    Cells.submit_parts svc fs' part_paths = inr (batch_ids, calls) ∧
    length batch_ids = NUM_PARTS ∧
    concat (map Files.splitlines (Cells.uploaded calls)) = Files.splitlines text.
Proof.
  intros HN Hfs Hne.
  destruct (ChunkerMore.parts_read_back NUM_PARTS fs text HN Hfs Hne)
    as (part_paths & fs' & contents & Hsplit & Hlen & Hfiles & Hlines).
  destruct (ChunkerMore.submit_from_spec svc fs' part_paths contents 0 [] [] Hfiles)
    as (ids & calls & Hrun & Hids & Hup & _).
  exists part_paths, fs', ids, calls. split_and!; [done|done| |].
  - rewrite Hids, length_imap, <- Hlen. symmetry. by eapply Forall2_length.
  - by rewrite Hup.
Qed.

Lemma every_line_submitted_once_witness :
  ∃ part_paths fs' batch_ids calls,
    Chunker.split_parts 3 Examples.eight_files = inr (part_paths, fs') ∧
    Cells.submit_parts (Cells.mkService (λ _ c, c) (λ _ f, f)) fs' part_paths
      = inr (batch_ids, calls) ∧
    length batch_ids = 3 ∧
    concat (map Files.splitlines (Cells.uploaded calls)) = Examples.eight_lines.
Proof.
  apply (every_line_submitted_once (Cells.mkService (λ _ c, c) (λ _ f, f)) 3
           Examples.eight_files (PyStr.join Builder.nl Examples.eight_lines)).
  - lia.
  - reflexivity.
  - vm_compute. repeat constructor; discriminate.
Defined.

(** ** More on the poller *)

Module PollerMore.
Import Poller PollerFacts PollerLog.

(** The log of one sweep, event by event. *)
Lemma sweep_log_exact status s :
  let s' := sweep status s in
  log s' =
  log s ++ map (retrieved status) (elements (PENDING s)) ++
  Print (size (COMPLETED s')) (size (FAILED s')) (size (PENDING s')) ::
  (if decide (PENDING s' = ∅) then [] else [Sleep 60]).
Proof.
  cbv zeta.
  destruct (foldl_visit_spec status (elements (PENDING s)) s) as (_ & _ & _ & HL).
  unfold sweep. cbn [PENDING COMPLETED FAILED log]. rewrite HL.
  case_decide as Hp; cbn [PENDING COMPLETED FAILED log].
  - rewrite decide_True by done. by rewrite <- app_assoc.
  - rewrite decide_False by done. by rewrite <- !app_assoc.
Qed.

(** The sizes of the three sets add up to the number of distinct
    handles. *)
Lemma partition_sizes batch_ids s :
  partition batch_ids s →
  size (COMPLETED s) + size (FAILED s) + size (PENDING s) =
  size (list_to_set batch_ids : gset string).
Proof.
  intros [Hcov Hpc Hpf Hcf].
  assert ((list_to_set batch_ids : gset string) =
          (COMPLETED s ∪ FAILED s) ∪ PENDING s) as ->.
  { apply set_eq. intros b. rewrite elem_of_list_to_set, Hcov. set_solver. }
  rewrite size_union by set_solver. rewrite size_union by set_solver. done.
Qed.

Lemma run_step k api s0 :
  run (S k) api 0 s0 = run k api 0 s0 ∨
  (PENDING (run k api 0 s0) ≠ ∅ ∧
   run (S k) api 0 s0 = sweep (api k) (run k api 0 s0)).
Proof.
  rewrite run_S_last. cbv zeta. case_decide; [by left|by right].
Qed.

(** Every progress line in the log adds up to the number of distinct
    handles. *)
Lemma log_lines_total batch_ids api k :
  Forall (line_total (size (list_to_set batch_ids : gset string)))
         (log (run k api 0 (init batch_ids))).
Proof.
  induction k as [|k IH]; [constructor|].
  destruct (run_step k api (init batch_ids)) as [->|[_ ->]]; [done|].
  rewrite sweep_log_exact. cbv zeta.
  apply Forall_app. split; [done|]. apply Forall_app. split.
  - apply Forall_forall. intros e He.
    apply list_elem_of_fmap in He as (b & -> & _). done.
  - constructor; [|case_decide; repeat constructor].
    cbn [line_total].
    apply (partition_sizes batch_ids), partition_sweep, partition_run.
Qed.

(** PENDING only shrinks, COMPLETED and FAILED only grow. *)
Lemma run_monotone batch_ids api k m :
  k ≤ m →
  PENDING (run m api 0 (init batch_ids)) ⊆ PENDING (run k api 0 (init batch_ids)) ∧
  COMPLETED (run k api 0 (init batch_ids)) ⊆ COMPLETED (run m api 0 (init batch_ids)) ∧
  FAILED (run k api 0 (init batch_ids)) ⊆ FAILED (run m api 0 (init batch_ids)).
Proof.
  induction 1 as [|m Hle IH]; [done|].
  destruct (run_step m api (init batch_ids)) as [->|[_ ->]]; [done|].
  destruct (sweep_spec (api m) (run m api 0 (init batch_ids))) as (HP & HC & HF).
  destruct IH as (IHP & IHC & IHF). split_and!.
  - intros b Hb. apply HP in Hb as [Hb _]. by apply IHP.
  - intros b Hb. apply HC. left. by apply IHC.
  - intros b Hb. apply HF. left. by apply IHF.
Qed.

(** A sweep queries pending handles only. *)
Lemma new_queries_are_pending batch_ids api k b st :
  Retrieve b st ∈ log (run (S k) api 0 (init batch_ids)) →
  Retrieve b st ∈ log (run k api 0 (init batch_ids)) ∨
  (b ∈ PENDING (run k api 0 (init batch_ids)) ∧ st = api k b).
Proof.
  destruct (run_step k api (init batch_ids)) as [->|[_ ->]]; [by left|].
  rewrite sweep_log_exact. cbv zeta. rewrite !elem_of_app.
  intros [?|[Hq|Hrest]]; [by left| |].
  - right. apply list_elem_of_fmap in Hq as (b' & [= -> ->] & Hb').
    by apply elem_of_elements in Hb'.
  - apply elem_of_cons in Hrest as [?|Hrest]; [done|].
    case_decide; [by apply elem_of_nil in Hrest|].
    by apply list_elem_of_singleton in Hrest.
Qed.

Lemma count_app p l1 l2 : count p (l1 ++ l2) = count p l1 + count p l2.
Proof. induction l1 as [|e l1 IH]; [done|]. cbn. rewrite IH. lia. Qed.

Lemma slept_app l1 l2 : slept (l1 ++ l2) = slept l1 + slept l2.
Proof.
  induction l1 as [|[b st|d f p|n] l1 IH]; [done|..]; cbn; rewrite ?IH; lia.
Qed.

Lemma count_queries p status l :
  (∀ b, p (retrieved status b) = false) →
  count p (map (retrieved status) l) = 0.
Proof. intros Hp. induction l as [|b l IH]; [done|]. cbn. by rewrite Hp, IH. Qed.

Lemma slept_queries status l : slept (map (retrieved status) l) = 0.
Proof. by induction l. Qed.

(** Sleeps and progress lines: level while something is pending, one
    sleep short once nothing is. *)
Lemma sleeps_and_lines batch_ids api k :
  let s := run k api 0 (init batch_ids) in
  slept (log s) = 60 * count is_sleep (log s) ∧
  (if decide (PENDING s = ∅)
   then count is_sleep (log s) = count is_print (log s) - 1
   else count is_sleep (log s) = count is_print (log s)).
Proof.
  cbv zeta. induction k as [|k [IHs IHc]].
  - cbn [run init log PENDING]. split; [done|]. by case_decide.
  - pose proof (run_S_last k api 0 (init batch_ids)) as Hs. cbv zeta in Hs.
    cbn [plus] in Hs. rewrite Hs. clear Hs.
    set (s := run k api 0 (init batch_ids)) in *.
    destruct (decide (PENDING s = ∅)) as [Hp|Hp].
    { split; [done|]. by rewrite decide_True. }
    rewrite sweep_log_exact. cbv zeta.
    rewrite !count_app, !slept_app, !count_queries, slept_queries by done.
    destruct (decide (PENDING (sweep (api k) s) = ∅)); cbn; lia.
Qed.

Lemma never_terminal_stays_pending batch_ids api bid k :
  bid ∈ batch_ids →
  (∀ j, ¬ terminal (api j bid)) →
  bid ∈ PENDING (run k api 0 (init batch_ids)).
Proof.
  intros Hin Hnever. induction k as [|k IH].
  - cbn [run init PENDING]. by apply elem_of_list_to_set.
  - apply stays_pending; [done| |].
    + intros Hst. apply (Hnever k). by left.
    + intros Hst. apply (Hnever k). by right.
Qed.

End PollerMore.

(** X14: at every point of the polling the three sets are pairwise
    disjoint and their sizes add up to the number of distinct batch ids; so
    do the three numbers of every progress line printed. *)
Theorem progress_counts_add_up
    (batch_ids : list string) (api : nat → string → string) (k : nat) :
  let s := Poller.run k api 0 (Poller.init batch_ids) in
  let n := size (list_to_set batch_ids : gset string) in
  Poller.PENDING s ## Poller.COMPLETED s ∧
  Poller.PENDING s ## Poller.FAILED s ∧
  Poller.COMPLETED s ## Poller.FAILED s ∧
  size (Poller.COMPLETED s) + size (Poller.FAILED s) + size (Poller.PENDING s) = n ∧
  ∀ done failed pending,
    Poller.Print done failed pending ∈ Poller.log s →
    done + failed + pending = n.
Proof.
  cbv zeta. pose proof (PollerFacts.partition_run batch_ids k api) as Hpart.
  split_and!.
  - intros b. apply (Poller.pending_not_completed _ _ Hpart).
  - intros b. apply (Poller.pending_not_failed _ _ Hpart).
  - intros b. apply (Poller.completed_not_failed _ _ Hpart).
  - by apply PollerMore.partition_sizes.
  - intros d f p Hin.
    pose proof (PollerMore.log_lines_total batch_ids api k) as Hall.
    rewrite Forall_forall in Hall. apply (Hall _ Hin).
Qed.

Lemma progress_counts_add_up_witness :
  Poller.Print 0 1 1 ∈
    Poller.log (Poller.run 2 Examples.demo_api 0 (Poller.init Examples.demo_ids)) ∧
  0 + 1 + 1 = size (list_to_set Examples.demo_ids : gset string).
Proof.
  assert (Poller.Print 0 1 1 ∈
            Poller.log (Poller.run 2 Examples.demo_api 0
                          (Poller.init Examples.demo_ids))) as Hin.
  { vm_compute. right. right. left. }
  split; [exact Hin|].
  destruct (progress_counts_add_up Examples.demo_ids Examples.demo_api 2)
    as (_ & _ & _ & _ & Hlines).
  apply (Hlines 0 1 1 Hin).
Defined.

(** X15: a batch whose status is never "completed" or "failed" (one that
    stays "expired" or "cancelled", say) keeps the loop polling: however
    many sweeps are allowed, the loop has not returned. *)
Theorem never_terminal_never_returns
    (batch_ids : list string) (api : nat → string → string) (bid : string) :
  bid ∈ batch_ids →
  (∀ j, api j bid ≠ "completed" ∧ api j bid ≠ "failed") →
  ∀ fuel, Poller.poll_loop fuel api 0 (Poller.init batch_ids) = None.
Proof.
  intros Hin Hnever fuel. rewrite PollerFacts.poll_loop_run.
  rewrite decide_False; [done|].
  assert (bid ∈ Poller.PENDING (Poller.run fuel api 0 (Poller.init batch_ids)))
    as Hb; [|set_solver].
  apply PollerMore.never_terminal_stays_pending; [done|].
  intros j [?|?]; by destruct (Hnever j).
Qed.

Lemma never_terminal_never_returns_witness :
  Poller.poll_loop 5 (λ _ _, "expired") 0 (Poller.init ["batch_x"]) = None.
Proof.
  apply (never_terminal_never_returns ["batch_x"] (λ _ _, "expired") "batch_x").
  - left.
  - intros j. split; discriminate.
Defined.

(** X16: a status query is only ever made for a handle that is pending at
    that time, and the status logged is the service's answer in that
    sweep; a handle that has left PENDING is never queried again. *)
Theorem resolved_handle_not_queried_again
    (batch_ids : list string) (api : nat → string → string) :
  let s0 := Poller.init batch_ids in
  (∀ k bid st,
     Poller.Retrieve bid st ∈ Poller.log (Poller.run (S k) api 0 s0) →
     Poller.Retrieve bid st ∈ Poller.log (Poller.run k api 0 s0) ∨
     (bid ∈ Poller.PENDING (Poller.run k api 0 s0) ∧ st = api k bid)) ∧
  (∀ k m bid st,
     k ≤ m →
     bid ∉ Poller.PENDING (Poller.run k api 0 s0) →
     Poller.Retrieve bid st ∈ Poller.log (Poller.run m api 0 s0) →
     Poller.Retrieve bid st ∈ Poller.log (Poller.run k api 0 s0)).
Proof.
  cbv zeta. split.
  - intros k bid st. apply PollerMore.new_queries_are_pending.
  - intros k m bid st Hle Hgone. induction Hle as [|m Hle IH]; [done|].
    intros Hq. apply PollerMore.new_queries_are_pending in Hq as [Hq|[Hb _]].
    + by apply IH.
    + destruct Hgone.
      by apply (PollerMore.run_monotone batch_ids api k m Hle).
Qed.

Lemma resolved_handle_not_queried_again_witness :
  Poller.Retrieve "batch_b" "failed" ∈
    Poller.log (Poller.run 1 Examples.demo_api 0 (Poller.init Examples.demo_ids)).
Proof.
  destruct (resolved_handle_not_queried_again Examples.demo_ids Examples.demo_api)
    as [_ Hgone].
  apply (Hgone 1 2).
  - lia.
  - apply (bool_decide_unpack _). vm_compute. reflexivity.
  - vm_compute. right. left.
Defined.

(** X17: terminal states are absorbing: as the polling goes on, a handle
    in COMPLETED stays in COMPLETED, a handle in FAILED stays in FAILED,
    and nothing comes back into PENDING. *)
Theorem terminal_states_absorbing
    (batch_ids : list string) (api : nat → string → string) (k m : nat) :
  k ≤ m →
  Poller.PENDING (Poller.run m api 0 (Poller.init batch_ids))
    ⊆ Poller.PENDING (Poller.run k api 0 (Poller.init batch_ids)) ∧
  Poller.COMPLETED (Poller.run k api 0 (Poller.init batch_ids))
    ⊆ Poller.COMPLETED (Poller.run m api 0 (Poller.init batch_ids)) ∧
  Poller.FAILED (Poller.run k api 0 (Poller.init batch_ids))
    ⊆ Poller.FAILED (Poller.run m api 0 (Poller.init batch_ids)).
Proof. apply PollerMore.run_monotone. Qed.

Lemma terminal_states_absorbing_witness :
  Poller.FAILED (Poller.run 1 Examples.demo_api 0 (Poller.init Examples.demo_ids))
    ⊆ Poller.FAILED (Poller.run 2 Examples.demo_api 0 (Poller.init Examples.demo_ids)).
Proof.
  apply (terminal_states_absorbing Examples.demo_ids Examples.demo_api 1 2). lia.
Defined.

(** X18: the loop sleeps 60 seconds after every sweep but the last: when
    it returns, the log holds one sleep less than progress lines (none if
    no sweep was needed), each of 60 seconds. *)
Theorem sleeps_between_sweeps
    (batch_ids : list string) (api : nat → string → string)
    (fuel : nat) (s' : Poller.state) :
  Poller.poll_loop fuel api 0 (Poller.init batch_ids) = Some s' →
  PollerLog.count PollerLog.is_sleep (Poller.log s') =
    PollerLog.count PollerLog.is_print (Poller.log s') - 1 ∧
  PollerLog.slept (Poller.log s') =
    60 * (PollerLog.count PollerLog.is_print (Poller.log s') - 1).
Proof.
  rewrite PollerFacts.poll_loop_run. case_decide as Hp; [|done]. intros [= <-].
  pose proof (PollerMore.sleeps_and_lines batch_ids api fuel) as [Hs Hc].
  cbv zeta in Hs, Hc. rewrite decide_True in Hc by done.
  split; [done|]. by rewrite Hs, Hc.
Qed.

Lemma sleeps_between_sweeps_witness :
  ∃ s',
    Poller.poll_loop 2 Examples.demo_api 0 (Poller.init Examples.demo_ids) = Some s' ∧
    PollerLog.slept (Poller.log s') = 60.
Proof.
  exists (Poller.run 2 Examples.demo_api 0 (Poller.init Examples.demo_ids)).
  assert (Poller.poll_loop 2 Examples.demo_api 0 (Poller.init Examples.demo_ids) =
          Some (Poller.run 2 Examples.demo_api 0 (Poller.init Examples.demo_ids)))
    as Hrun by (vm_compute; reflexivity).
  split; [exact Hrun|].
  destruct (sleeps_between_sweeps Examples.demo_ids Examples.demo_api 2 _ Hrun)
    as [_ Hslept].
  rewrite Hslept. vm_compute. reflexivity.
Defined.



(** ** More on parsing and retrieval *)

Module ParserMore.
Import PyStr Files Lines Parser ParserFacts.



Lemma download_completed client bid fs :
  batch_status client bid = "completed" →
  download_output client bid fs =
  (Some (out_path bid), <[out_path bid := output_text client bid]> fs).
Proof.
  intros Hst. unfold download_output, out_path.
  rewrite decide_False; [done|]. intros Hne. by apply Hne.
Qed.

Lemma download_not_completed client bid fs :
  batch_status client bid ≠ "completed" →
  download_output client bid fs = (None, fs).
Proof. intros Hst. unfold download_output. by rewrite decide_True. Qed.

Section WithDecoder.
Variable json_loads : string → option json.

(** The loop of [parse_batch_file], line by line. *)
Lemma parse_lines_spec lines rows out :
  parse_lines json_loads lines rows = inr out ↔
  ∃ new, out = rows ++ new ∧
         Forall2 (λ line row, parse_line json_loads line = inr row) lines new.
Proof.
  revert rows. induction lines as [|line lines IH]; intros rows; cbn [parse_lines].
  - split.
    + intros [= <-]. exists []. by rewrite app_nil_r.
    + intros (new & -> & Hall). apply Forall2_nil_inv_l in Hall as ->.
      by rewrite app_nil_r.
  - destruct (parse_line json_loads line) as [e|row] eqn:Hline.
    + split; [intros H; discriminate H|]. intros (new & _ & Hall).
      apply Forall2_cons_inv_l in Hall as (r & new' & Hr & _ & _). congruence.
    + rewrite bind_of_inr, IH. split.
      * intros (new & -> & Hall). exists (row :: new).
        split; [by rewrite <- app_assoc|]. by constructor.
      * intros (new & -> & Hall).
        apply Forall2_cons_inv_l in Hall as (r & new' & Hr & Hall & ->).
        exists new'. split; [|done]. rewrite <- app_assoc.
        replace r with row by congruence. done.
Qed.

Lemma parse_batch_file_written fs path text :
  parse_batch_file json_loads (<[path := text]> fs) path =
  parse_lines json_loads (splitlines text) [].
Proof. unfold parse_batch_file, read_text. by rewrite lookup_insert_eq. Qed.

(** What one line contributes. *)
Lemma parse_line_row line row :
  parse_line json_loads line = inr row →
  ∃ n lang fields,
    line_decomposed json_loads line = inr (n, lang) ∧
    line_payload json_loads line = inr (JDict fields) ∧
    row = dict_of fields ∪
          <["language" := JStr lang]> (<["claim_id" := JInt n]> ∅).
Proof.
  unfold parse_line, line_decomposed, line_payload. intros H.
  apply bind_inr in H as (blob & -> & H).
  apply bind_inr in H as (cid & Hcid & H).
  apply bind_inr in H as (content & Hcontent & H).
  apply bind_inr in H as (payload & Hpayload & H).
  apply bind_inr in H as (cid_s & Hstr & H).
  apply bind_inr in H as ([n lang] & Hkl & H).
  destruct payload as [| | | | | |fields]; try done.
  injection H as <-. exists n, lang, fields. split_and!; [| |done].
  - by step_bind Hcid; step_bind Hstr.
  - by step_bind Hcontent.
Qed.

(** One turn of the loop of the download-and-parse cell. *)
Lemma collect_tables_completed client b bids acc fs :
  batch_status client b = "completed" →
  collect_tables json_loads client (b :: bids) acc fs =
  parse_lines json_loads (splitlines (output_text client b)) [] ≫=
    λ table, collect_tables json_loads client bids (acc ++ [table])
               (<[out_path b := output_text client b]> fs).
Proof.
  intros Hb. cbn [collect_tables].
  by rewrite download_completed, parse_batch_file_written.
Qed.

Lemma collect_tables_skipped client b bids acc fs :
  batch_status client b ≠ "completed" →
  collect_tables json_loads client (b :: bids) acc fs =
  collect_tables json_loads client bids acc fs.
Proof. intros Hb. cbn [collect_tables]. by rewrite download_not_completed. Qed.

(** The loop over handles that all download and parse. *)
Lemma collect_tables_all client tables bids acc fs :
  (∀ bid, bid ∈ bids → batch_status client bid = "completed") →
  (∀ bid, bid ∈ bids →
     parse_lines json_loads (splitlines (output_text client bid)) []
       = inr (tables bid)) →
  ∃ fs', collect_tables json_loads client bids acc fs
           = inr (acc ++ map tables bids, fs').
Proof.
  revert acc fs. induction bids as [|bid bids IH]; intros acc fs Hst Hparse.
  - exists fs. by rewrite app_nil_r.
  - rewrite collect_tables_completed by (apply Hst; left).
    rewrite Hparse, bind_of_inr by left.
    destruct (IH (acc ++ [tables bid])
                 (<[out_path bid := output_text client bid]> fs))
      as (fs' & Hrest).
    + intros b Hb. apply Hst. by right.
    + intros b Hb. apply Hparse. by right.
    + exists fs'. rewrite <- app_assoc in Hrest. exact Hrest.
Qed.

(** A completed handle whose output does not parse stops the loop. *)
Lemma collect_tables_abort client bids acc fs bid :
  bid ∈ bids →
  batch_status client bid = "completed" →
  raises (parse_lines json_loads (splitlines (output_text client bid)) []) →
  raises (collect_tables json_loads client bids acc fs).
Proof.
  intros Hin Hst Hbad. revert acc fs.
  induction bids as [|b bids IH]; intros acc fs; [by apply elem_of_nil in Hin|].
  destruct (decide (batch_status client b = "completed")) as [Hb|Hb].
  - rewrite collect_tables_completed by done.
    destruct (parse_lines json_loads (splitlines (output_text client b)) [])
      as [e|table] eqn:Hp; [apply raises_inl|]. rewrite bind_of_inr.
    apply elem_of_cons in Hin as [->|Hin].
    + destruct Hbad as [e He]. congruence.
    + by apply IH.
  - rewrite collect_tables_skipped by done.
    apply elem_of_cons in Hin as [->|Hin]; [done|]. by apply IH.
Qed.


End WithDecoder.

End ParserMore.

(** X20: [parse_batch_file] returns a table exactly when the file exists
    and every one of its lines parses; the table then has one row per
    line, in the order of the lines. *)
Theorem parsed_table_has_one_row_per_line
    (json_loads : string → option Parser.json)
    (fs : gmap string string) (path : string) (table : Parser.DataFrame) :
  Parser.parse_batch_file json_loads fs path = inr table ↔
  ∃ text,
    fs !! path = Some text ∧
    Forall2 (λ line row, Parser.parse_line json_loads line = inr row)
            (Files.splitlines text) table.
Proof.
  unfold Parser.parse_batch_file, Files.read_text.
  destruct (fs !! path) as [text|]; cbn.
  - rewrite ParserMore.parse_lines_spec. split.
    + intros (new & -> & Hall). by exists text.
    + intros (text' & [= <-] & Hall). by exists table.
  - split; [done|]. by intros (text & ? & _).
Qed.

Lemma parsed_table_has_one_row_per_line_witness :
  ∃ table,
    Parser.parse_batch_file Examples.demo_loads
      {[ Examples.demo_out := "line-1" +:+ Builder.nl +:+ "line-1" ]}
      Examples.demo_out = inr table ∧
    length table = 2.
Proof.
  destruct (Parser.parse_batch_file Examples.demo_loads
              {[ Examples.demo_out := "line-1" +:+ Builder.nl +:+ "line-1" ]}
              Examples.demo_out) as [e|table] eqn:Hparse; [by vm_compute in Hparse|].
  exists table. split; [reflexivity|].
  apply parsed_table_has_one_row_per_line in Hparse as (text & Hfile & Hrows).
  vm_compute in Hfile. injection Hfile as <-.
  apply Forall2_length in Hrows. rewrite <- Hrows. reflexivity.
Defined.

(** X21: a parsed row is the payload object with the keys "claim_id" and
    "language" added: every payload field is in the row with its value, the
    two keys carry the decomposed identifier unless the payload has fields
    of these names (then the payload's values stand), and the row has no
    other keys. *)
Theorem parsed_row_contents
    (json_loads : string → option Parser.json) (line : string)
    (row : Parser.ResultRecord) :
  Parser.parse_line json_loads line = inr row →
  ∃ n lang fields,
    Parser.line_decomposed json_loads line = inr (n, lang) ∧
    Parser.line_payload json_loads line = inr (Parser.JDict fields) ∧
    (∀ key v, Parser.dict_of fields !! key = Some v → row !! key = Some v) ∧
    (Parser.dict_of fields !! "claim_id" = None →
       row !! "claim_id" = Some (Parser.JInt n)) ∧
    (Parser.dict_of fields !! "language" = None →
       row !! "language" = Some (Parser.JStr lang)) ∧
    (∀ key, is_Some (row !! key) →
       key = "claim_id" ∨ key = "language" ∨
       is_Some (Parser.dict_of fields !! key)).
Proof.
  intros Hline.
  destruct (ParserMore.parse_line_row json_loads line row Hline)
    as (n & lang & fields & Hid & Hpayload & ->).
  unfold Parser.ResultRecord in *.
  exists n, lang, fields. split_and!; [done|done|..].
  - intros key v Hkey. by apply lookup_union_Some_l.
  - intros Hnone. rewrite lookup_union_r by done.
    rewrite lookup_insert_ne by done. apply lookup_insert_eq.
  - intros Hnone. rewrite lookup_union_r by done. apply lookup_insert_eq.
  - intros key. rewrite lookup_union_is_Some. intros [?|Hbase]; [auto|].
    destruct (decide (key = "language")) as [->|Hl]; [auto|].
    destruct (decide (key = "claim_id")) as [->|Hc]; [auto|].
    rewrite !lookup_insert_ne, lookup_empty in Hbase by done.
    by destruct Hbase.
Qed.

Lemma parsed_row_contents_witness :
  ∃ row,
    Parser.parse_line Examples.demo_loads "line-1" = inr row ∧
    row !! "claim_id" = Some (Parser.JInt 1) ∧
    row !! "language" = Some (Parser.JStr "Spanish").
Proof.
  destruct (Parser.parse_line Examples.demo_loads "line-1") as [e|row] eqn:Hline;
    [by vm_compute in Hline|].
  exists row. split; [reflexivity|].
  destruct (parsed_row_contents Examples.demo_loads "line-1" row Hline)
    as (n & lang & fields & Hid & Hpayload & _ & Hcid & Hlang & _).
  vm_compute in Hid. injection Hid as <- <-.
  vm_compute in Hpayload. injection Hpayload as <-.
  split; [apply Hcid | apply Hlang]; reflexivity.
Defined.

(** X22: when there is a completed handle and every completed handle
    downloads and parses, the cell returns the tables of the handles,
    concatenated in the order it visits them: the rows collected are the
    rows of all completed batches, and none of another batch. *)
Theorem retrieval_concatenates_tables
    (json_loads : string → option Parser.json) (client : Parser.Client)
    (COMPLETED : gset string) (fs : gmap string string)
    (tables : string → Parser.DataFrame) :
  COMPLETED ≠ ∅ →
  (∀ bid, bid ∈ COMPLETED → Parser.batch_status client bid = "completed") →
  (∀ bid, bid ∈ COMPLETED →
     Parser.parse_lines json_loads
       (Files.splitlines (Parser.output_text client bid)) [] = inr (tables bid)) →
  ∃ fs',
    Parser.retrieve_all json_loads client COMPLETED fs
      = inr (concat (map tables (elements COMPLETED)), fs') ∧
    length (concat (map tables (elements COMPLETED)))
      = sum_list (map (λ bid, length (tables bid)) (elements COMPLETED)).
Proof.
  intros Hne Hst Hparse.
  destruct (ParserMore.collect_tables_all json_loads client tables
              (elements COMPLETED) [] fs) as (fs' & Hloop).
  { intros bid Hbid. apply Hst. by apply elem_of_elements. }
  { intros bid Hbid. apply Hparse. by apply elem_of_elements. }
  exists fs'. split.
  - unfold Parser.retrieve_all. rewrite Hloop. cbn.
    destruct (elements COMPLETED) as [|bid bids] eqn:Hel; [|done].
    by apply elements_empty_inv, leibniz_equiv in Hel.
  - clear. induction (elements COMPLETED) as [|bid bids IH]; [done|].
    cbn. by rewrite length_app, IH.
Qed.

Lemma retrieval_concatenates_tables_witness :
  ∃ table fs',
    Parser.retrieve_all Examples.demo_loads Examples.demo_client {[ "batch_a" ]} ∅
      = inr (table, fs') ∧
    length table = 1.
Proof.
  destruct (Parser.parse_lines Examples.demo_loads
              (Files.splitlines (Parser.output_text Examples.demo_client "batch_a")) [])
    as [e|t] eqn:Hparse; [by vm_compute in Hparse|].
  destruct (retrieval_concatenates_tables Examples.demo_loads Examples.demo_client
              {[ "batch_a" ]} ∅ (λ _, t)) as (fs' & Hrun & Hlen).
  - apply (bool_decide_unpack _). vm_compute. reflexivity.
  - intros bid Hbid. apply elem_of_singleton in Hbid as ->. reflexivity.
  - intros bid Hbid. apply elem_of_singleton in Hbid as ->. exact Hparse.
  - eexists _, fs'. split; [exact Hrun|].
    rewrite Hlen. vm_compute in Hparse. injection Hparse as <-.
    vm_compute. reflexivity.
Defined.

(** X23: one completed batch whose output does not parse makes the whole
    download-and-parse cell raise: no aggregate is returned, whatever the
    other batches hold. *)
Theorem one_bad_batch_aborts_retrieval
    (json_loads : string → option Parser.json) (client : Parser.Client)
    (COMPLETED : gset string) (fs : gmap string string) (bid : string) :
  bid ∈ COMPLETED →
  Parser.batch_status client bid = "completed" →
  raises (Parser.parse_lines json_loads
            (Files.splitlines (Parser.output_text client bid)) []) →
  raises (Parser.retrieve_all json_loads client COMPLETED fs).
Proof.
  intros Hin Hst Hbad. unfold Parser.retrieve_all.
  apply ParserFacts.bind_raises.
  apply (ParserMore.collect_tables_abort json_loads client _ _ _ bid); [|done|done].
  by apply elem_of_elements.
Qed.

Lemma one_bad_batch_aborts_retrieval_witness :
  raises (Parser.retrieve_all Examples.demo_loads
            (Parser.mkClient (λ _, "completed") (λ _, "line-2"))
            {[ "batch_a" ]} ∅).
Proof.
  apply (one_bad_batch_aborts_retrieval Examples.demo_loads
           (Parser.mkClient (λ _, "completed") (λ _, "line-2"))
           {[ "batch_a" ]} ∅ "batch_a").
  - by apply elem_of_singleton.
  - reflexivity.
  - eexists. vm_compute. reflexivity.
Defined.



(** ** More on the API-key cell *)

Module StartupMore.
Import PyStr Startup.

Lemma rstrip_with_idem sp s :
  rstrip_with sp (rstrip_with sp s) = rstrip_with sp s.
Proof.
  induction s as [|c s IH]; [done|]. cbn [rstrip_with].
  destruct (rstrip_with sp s) as [|c' r] eqn:Hr.
  - destruct (sp c) eqn:Hc; [done|]. cbn [rstrip_with]. by rewrite Hc.
  - cbn [rstrip_with] in IH |- *. by rewrite IH.
Qed.

(** Stripping on the right leaves a first character that is no
    whitespace where it is. *)
Lemma rstrip_with_head sp c s :
  sp c = false → ∃ r, rstrip_with sp (String c s) = String c r.
Proof.
  intros Hc. cbn [rstrip_with]. destruct (rstrip_with sp s); rewrite ?Hc; eauto.
Qed.

Lemma lstrip_with_head sp s :
  lstrip_with sp s = EmptyString ∨
  ∃ c r, lstrip_with sp s = String c r ∧ sp c = false.
Proof.
  induction s as [|c s IH]; [by left|]. cbn [lstrip_with].
  destruct (sp c) eqn:Hc; [done|]. right. eauto.
Qed.

(** [strip] is idempotent: what it returns has no whitespace at either
    end. *)
Lemma strip_with_idem sp s :
  strip_with sp (strip_with sp s) = strip_with sp s.
Proof.
  unfold strip_with. destruct (lstrip_with_head sp s) as [->|(c & r & -> & Hc)]; [done|].
  destruct (rstrip_with_head sp c r Hc) as [r' Hr]. rewrite Hr.
  cbn [lstrip_with]. rewrite Hc, <- Hr. apply rstrip_with_idem.
Qed.

Lemma startup_cases environ fs :
  startup environ fs =
  match environ !! OPENAI_API_KEY with
  | Some EmptyString => inl (ValueError "Put your API key in .env or key/openai_key.txt")
  | Some key => inr (environ, mkOpenAI key)
  | None =>
      match fs !! key_file with
      | None => inl (ValueError "Put your API key in .env or key/openai_key.txt")
      | Some text =>
          match strip text with
          | EmptyString => inl (ValueError "Put your API key in .env or key/openai_key.txt")
          | key => inr (<[OPENAI_API_KEY := key]> environ, mkOpenAI key)
          end
      end
  end.
Proof.
  unfold startup, key_fallback.
  destruct (environ !! OPENAI_API_KEY) as [key|] eqn:He.
  - rewrite He. by destruct key.
  - destruct (fs !! key_file) as [text|]; [|by rewrite He].
    rewrite lookup_insert_eq. by destruct (strip text).
Qed.

End StartupMore.



(** X26: when the key cell returns, the client's key is not empty and is
    the value of OPENAI_API_KEY in the environment afterwards; every other
    variable is as before; a key the variable already held is used as it is
    and the environment is unchanged; a key taken from the file is the
    file's text stripped, so it has no whitespace at either end. *)
Theorem startup_key_postconditions
    (environ fs environ' : gmap string string) (client : Startup.OpenAI) :
  Startup.startup environ fs = inr (environ', client) →
  Startup.api_key client ≠ EmptyString ∧
  environ' !! Startup.OPENAI_API_KEY = Some (Startup.api_key client) ∧
  (∀ name, name ≠ Startup.OPENAI_API_KEY → environ' !! name = environ !! name) ∧
  (∀ key, environ !! Startup.OPENAI_API_KEY = Some key →
     Startup.api_key client = key ∧ environ' = environ) ∧
  (environ !! Startup.OPENAI_API_KEY = None →
     ∃ text, fs !! Startup.key_file = Some text ∧
             Startup.api_key client = PyStr.strip text ∧
             PyStr.strip (Startup.api_key client) = Startup.api_key client).
Proof.
  rewrite StartupMore.startup_cases.
  destruct (environ !! Startup.OPENAI_API_KEY) as [[|c key]|] eqn:He; [done| |].
  - intros [= <- <-]. cbn [Startup.api_key]. split_and!; try done.
    + by intros key' [= <-].
  - destruct (fs !! Startup.key_file) as [text|]; [|done].
    destruct (PyStr.strip text) as [|c key] eqn:Hs; [done|].
    intros [= <- <-]. cbn [Startup.api_key]. split_and!; try done.
    + apply lookup_insert_eq.
    + intros name Hname. by apply lookup_insert_ne.
    + intros _. exists text. split_and!; [done|done|].
      rewrite <- Hs. apply StartupMore.strip_with_idem.
Qed.

Lemma startup_key_postconditions_witness :
  ∃ environ' client,
    Startup.startup ∅ {[ Startup.key_file := " sk-test " ]} = inr (environ', client) ∧
    Startup.api_key client = "sk-test".
Proof.
  destruct (Startup.startup ∅ {[ Startup.key_file := " sk-test " ]})
    as [e|[environ' client]] eqn:Hrun; [by vm_compute in Hrun|].
  exists environ', client. split; [reflexivity|].
  destruct (startup_key_postconditions _ _ _ _ Hrun) as (_ & _ & _ & _ & Hfile).
  destruct Hfile as (text & Htext & Hkey & _); [reflexivity|].
  vm_compute in Htext. injection Htext as <-. rewrite Hkey. reflexivity.
Defined.
